(** * AirCut backend: gesture recogniser, frame pipeline and session handlers

    A shallow embedding of [backend/main.py].

    Numbers.  Trajectory coordinates, path lengths and similarities are
    Python floats; they are modelled by the real numbers [R], that is, with
    rounding, overflow and NaN idealised away.  [x ** 0.5] is [sqrt x].
    The frame-skip divisor and the detector's scores are modelled by exact
    rationals [Q] (see [py_mod] for why this is exact for the divisor).

    Exceptions.  A Python computation that may raise is a function into
    [option]; [None] is "an exception was raised". *)

From Stdlib Require Import String Ascii DecimalString.
From Stdlib Require Import DecimalNat DecimalFacts.
From Stdlib Require Import Reals Lra Lia Bool Arith ZArith QArith Qround List Permutation.
From Equations Require Import Equations.
Import ListNotations.


(** ** The exception monad *)

Definition bind {A B : Type} (m : option A) (k : A -> option B) : option B :=
  match m with
  | Some a => k a
  | None => None
  end.

Notation "x <- m ;; k" := (bind m (fun x => k))
  (at level 61, m at next level, right associativity).
Notation "' p <- m ;; k" := (bind m (fun x => let p := x in k))
  (at level 61, p pattern, m at next level, right associativity).

(** ** Points and trajectories

    A trajectory arrives as a JSON array.  An element is an object with
    (optional) numeric fields [x] and [y], an array of numbers, or a value
    that is neither an object nor an array.  Arrays that hold something
    else than numbers, and objects whose [x] or [y] is not a number, are
    not modelled: on those [float] or the arithmetic raises or converts. *)

Inductive point : Type :=
| PDict (x y : option R)      (* {"x": .., "y": ..} *)
| PList (cs : list R)         (* [c0, c1, ...] *)
| POther.                     (* neither an object nor an array *)

Definition trajectory := list point.

Open Scope R_scope.

(** [p[k]] for a point [p]: only a sequence can be indexed by a number. *)
Definition item (p : point) (k : nat) : option R :=
  match p with
  | PList cs => nth_error cs k
  | _ => None
  end.

(** [trajectory[i][k]] *)
Definition coord (t : trajectory) (i k : nat) : option R :=
  p <- nth_error t i ;; item p k.

(** [dx = t[i][0] - t[j][0]; dy = t[i][1] - t[j][1]] *)
Definition delta (t : trajectory) (i j : nat) : option (R * R) :=
  x1 <- coord t i 0 ;; x0 <- coord t j 0 ;;
  y1 <- coord t i 1 ;; y0 <- coord t j 1 ;;
  Some (x1 - x0, y1 - y0).

(** [(dx * dx + dy * dy) ** 0.5] *)
Definition norm2 (d : R * R) : R := sqrt (fst d * fst d + snd d * snd d).

(** ** [SimpleGestureRecognizer.resample_trajectory] *)

(** The loop [for i in range(1, len(trajectory)): total_length += ...],
    over the list of the values of [i]. *)
Fixpoint sum_segments (t : trajectory) (ixs : list nat) (total_length : R) : option R :=
  match ixs with
  | [] => Some total_length
  | i :: rest =>
      d <- delta t i (i - 1) ;;
      sum_segments t rest (total_length + norm2 d)
  end.

Definition path_length (t : trajectory) : option R :=
  sum_segments t (seq 1 (length t - 1)) 0.

(** State of the walk: [current_distance], [current_point_idx] and the point
    appended by this run of the [while] loop, if any. *)
Definition walk_result : Type := R * nat * option point.

(** The inner [while] loop, for one target distance.  It stops when the
    guard fails or at [break]. *)
Equations? walk (t : trajectory) (target_total_distance current_distance : R)
    (current_point_idx : nat) : option walk_result
    by wf (length t - 1 - current_point_idx)%nat lt :=
  walk t target_total_distance current_distance current_point_idx
    with Rlt_dec current_distance target_total_distance,
         lt_dec current_point_idx (length t - 1) => {
    | left _, left Hidx with delta t (current_point_idx + 1) current_point_idx => {
        | None => None
        | Some d =>
            let segment_length := norm2 d in
            if Rge_dec (current_distance + segment_length) target_total_distance
            then
              let remaining_distance := target_total_distance - current_distance in
              if Rgt_dec segment_length 0 then
                let ratio := remaining_distance / segment_length in
                x0 <- coord t current_point_idx 0 ;;
                y0 <- coord t current_point_idx 1 ;;
                Some (current_distance, current_point_idx,
                      Some (PList [x0 + fst d * ratio; y0 + snd d * ratio]))
              else
                p <- nth_error t current_point_idx ;;
                Some (current_distance, current_point_idx, Some p)
            else
              walk t target_total_distance (current_distance + segment_length)
                   (current_point_idx + 1) };
    | _, _ => Some (current_distance, current_point_idx, None) }.
Proof. lia. Qed.

(** The outer loop [for i in range(1, target_count - 1)], over the list of
    the values of [i]; [resampled] is the list built so far. *)
Fixpoint resample_loop (t : trajectory) (target_distance : R) (ixs : list nat)
    (current_distance : R) (current_point_idx : nat) (resampled : list point)
    : option (list point) :=
  match ixs with
  | [] => Some resampled
  | i :: rest =>
      let target_total_distance := INR i * target_distance in
      '(cd, idx, appended) <- walk t target_total_distance current_distance current_point_idx ;;
      resample_loop t target_distance rest cd idx
        (resampled ++ match appended with Some p => [p] | None => [] end)
  end.

Definition resample_trajectory (t : trajectory) (target_count : Z) : option trajectory :=
  if (length t <=? 1)%nat || (target_count <=? 1)%Z then Some t
  else if (Z.of_nat (length t) =? target_count)%Z then Some t
  else
    total_length <- path_length t ;;
    if Req_dec_T total_length 0 then Some t
    else
      first <- nth_error t 0 ;;
      let target_distance := total_length / IZR (target_count - 1) in
      resampled <- resample_loop t target_distance
                     (seq 1 (Z.to_nat (target_count - 2))) 0 0%nat [first] ;;
      final <- nth_error t (length t - 1) ;;
      Some (resampled ++ [final]).

(** ** [SimpleGestureRecognizer.normalize_trajectory] *)

(** One turn of the conversion loop: an object gives
    [[point.get('x', 0), point.get('y', 0)]], a sequence of at least two
    numbers gives its first two, anything else is skipped ([None]). *)
Definition to_xy (p : point) : option (R * R) :=
  match p with
  | PDict x y =>
      Some (match x with Some v => v | None => 0 end,
            match y with Some v => v | None => 0 end)
  | PList (x :: y :: _) => Some (x, y)
  | _ => None
  end.

Fixpoint convert (t : trajectory) : list (R * R) :=
  match t with
  | [] => []
  | p :: rest =>
      match to_xy p with
      | Some c => c :: convert rest
      | None => convert rest
      end
  end.

(** The list [[x, y]] as a point. *)
Definition as_point (c : R * R) : point := PList [fst c; snd c].

(** [min(xs)] and [max(xs)]; used on non-empty lists only. *)
Definition py_min (xs : list R) : R := fold_left Rmin (tl xs) (hd 0 xs).
Definition py_max (xs : list R) : R := fold_left Rmax (tl xs) (hd 0 xs).

Definition normalize_trajectory (t : trajectory) : trajectory :=
  if (length t <? 2)%nat then t
  else
    let points := convert t in
    if (length points <? 2)%nat then map as_point points
    else
      let xs := map fst points in
      let ys := map snd points in
      let min_x := py_min xs in
      let max_x := py_max xs in
      let min_y := py_min ys in
      let max_y := py_max ys in
      let width := if Rgt_dec max_x min_x then max_x - min_x else 1 in
      let height := if Rgt_dec max_y min_y then max_y - min_y else 1 in
      map (fun c => PList [(fst c - min_x) / width; (snd c - min_y) / height]) points.

(** ** [SimpleGestureRecognizer.calculate_similarity] *)

(** The loop [for i in range(len(resampled1)): total_distance += ...]. *)
Fixpoint sum_distances (resampled1 resampled2 : trajectory) (ixs : list nat)
    (total_distance : R) : option R :=
  match ixs with
  | [] => Some total_distance
  | i :: rest =>
      x1 <- coord resampled1 i 0 ;; x2 <- coord resampled2 i 0 ;;
      y1 <- coord resampled1 i 1 ;; y2 <- coord resampled2 i 1 ;;
      let distance := norm2 (x1 - x2, y1 - y2) in
      sum_distances resampled1 resampled2 rest (total_distance + distance)
  end.

Definition is_empty {A} (l : list A) : bool :=
  match l with [] => true | _ => false end.

Definition max_distance : R := 1.414.

Definition calculate_similarity (trajectory1 trajectory2 : trajectory) : option R :=
  if is_empty trajectory1 || is_empty trajectory2 then Some 0
  else
    let target_points :=
      Z.min 50 (Z.max (Z.of_nat (length trajectory1)) (Z.of_nat (length trajectory2))) in
    resampled1 <- resample_trajectory trajectory1 target_points ;;
    resampled2 <- resample_trajectory trajectory2 target_points ;;
    total_distance <- sum_distances resampled1 resampled2 (seq 0 (length resampled1)) 0 ;;
    let avg_distance := total_distance / INR (length resampled1) in
    Some (Rmax 0 (1 - avg_distance / max_distance)).

(** ** Templates and [SimpleGestureRecognizer.recognize_gesture] *)

Record template : Type := {
  tpl_id : string;
  tpl_name : string;
  tpl_trajectory : trajectory;
  tpl_point_count : nat
}.

(** [self.templates]: a dict, kept as the list of its items in insertion
    order. *)
Definition templates := list (string * template).

Fixpoint dict_set (d : templates) (k : string) (v : template) : templates :=
  match d with
  | [] => [(k, v)]
  | (k', v') :: rest =>
      if String.eqb k' k then (k, v) :: rest else (k', v') :: dict_set rest k v
  end.

Definition add_template (d : templates) (template_id name : string) (t : trajectory)
    : templates :=
  let normalized_trajectory := normalize_trajectory t in
  dict_set d template_id
    {| tpl_id := template_id; tpl_name := name;
       tpl_trajectory := normalized_trajectory;
       tpl_point_count := length normalized_trajectory |}.

Record gesture_match : Type := {
  match_template_id : string;
  match_name : string;
  match_similarity : R;
  match_confidence : R
}.

(** The loop over [self.templates.items()], with the loop state
    [best_match], [best_similarity]. *)
Fixpoint best_template (items : templates) (normalized_input : trajectory)
    (confidence_threshold : R) (best_match : option gesture_match) (best_similarity : R)
    : option (option gesture_match) :=
  match items with
  | [] => Some best_match
  | (template_id, tpl) :: rest =>
      similarity <- calculate_similarity normalized_input (tpl_trajectory tpl) ;;
      if Rgt_dec similarity best_similarity then
        if Rge_dec similarity confidence_threshold then
          best_template rest normalized_input confidence_threshold
            (Some {| match_template_id := template_id; match_name := tpl_name tpl;
                     match_similarity := similarity; match_confidence := similarity |})
            similarity
        else best_template rest normalized_input confidence_threshold best_match best_similarity
      else best_template rest normalized_input confidence_threshold best_match best_similarity
  end.

(** [Some None] is the result [None] (no match); [None] is an exception. *)
Definition recognize_gesture (d : templates) (t : trajectory) (confidence_threshold : R)
    : option (option gesture_match) :=
  if (length t <? 2)%nat then Some None
  else if is_empty d then Some None
  else
    let normalized_input := normalize_trajectory t in
    if (length normalized_input <? 2)%nat then Some None
    else best_template d normalized_input confidence_threshold None 0.

Close Scope R_scope.

(** ** [HighPerformanceCameraManager]: the frame detection pipeline

    The detector, the image codec and the clock are outside the program.
    They are taken as parameters: a detector is a function that either
    raises or returns results; the codec may fail; the clock is read through
    [clock], whose argument counts the readings within one call. *)

Record prediction : Type := {
  pred_x : Q; pred_y : Q; pred_width : Q; pred_height : Q;
  pred_confidence : Q;
  pred_class_name : option string
}.

(** An element of the list returned by [infer]; [getattr(result,
    'predictions', [])] is [[]] when the attribute is missing. *)
Record infer_result : Type := { res_predictions : option (list prediction) }.

Inductive infer_outcome : Type :=
| InferRaises
| InferReturns (results : list infer_result).

Record frame : Type := { frame_height : nat; frame_width : nat; frame_pixels : list nat }.

Definition detector : Type := frame -> Q -> infer_outcome.

Record detection : Type := {
  det_x : Q; det_y : Q; det_width : Q; det_height : Q;
  det_confidence : Q;
  det_class : string
}.

Inductive decode_outcome : Type :=
| DecodeRaises                 (* b64decode or imdecode raised *)
| DecodeNone                   (* imdecode returned None *)
| Decoded (f : frame).

Record externals : Type := {
  clock : nat -> Q;                           (* time.time() inside process_frame *)
  now : Q;                                    (* time.time() of a reply *)
  cv2_resize : frame -> nat -> option frame;  (* None: cv2.resize raised *)
  b64_imdecode : string -> decode_outcome
}.

Record camera_manager : Type := {
  model : option detector;
  is_active : bool;
  tracking_enabled : bool;
  frame_count : nat;
  detection_count : nat;
  fps_start_time : Q;
  detection_times : list Q;          (* deque(maxlen=30) *)
  current_detections : list detection;
  detection_frame_size : nat
}.

(** What a call does: it returns a value or it raises. *)
Inductive outcome (A : Type) : Type :=
| Returned (a : A)
| Raised.
Arguments Returned {A} a.
Arguments Raised {A}.

Definition Qltb (a b : Q) : bool := negb (Qle_bool b a).

(** [deque(maxlen=30).append(x)]: the oldest entry leaves a full window. *)
Definition deque_append (maxlen : nat) (d : list Q) (x : Q) : list Q :=
  if (maxlen <=? length d)%nat then tl d ++ [x] else d ++ [x].

(** [max(predictions, key=lambda x: x.confidence)]: the first prediction of
    maximal confidence. *)
Definition max_confidence (first : prediction) (others : list prediction) : prediction :=
  fold_left
    (fun best p => if Qltb (pred_confidence best) (pred_confidence p) then p else best)
    others first.

Definition set_frame_count (cm : camera_manager) (n : nat) : camera_manager :=
  {| model := model cm; is_active := is_active cm; tracking_enabled := tracking_enabled cm;
     frame_count := n; detection_count := detection_count cm;
     fps_start_time := fps_start_time cm; detection_times := detection_times cm;
     current_detections := current_detections cm;
     detection_frame_size := detection_frame_size cm |}.

Definition set_tracking (cm : camera_manager) (b : bool) : camera_manager :=
  {| model := model cm; is_active := is_active cm; tracking_enabled := b;
     frame_count := frame_count cm; detection_count := detection_count cm;
     fps_start_time := fps_start_time cm; detection_times := detection_times cm;
     current_detections := current_detections cm;
     detection_frame_size := detection_frame_size cm |}.

Definition set_current_detections (cm : camera_manager) (l : list detection) : camera_manager :=
  {| model := model cm; is_active := is_active cm; tracking_enabled := tracking_enabled cm;
     frame_count := frame_count cm; detection_count := detection_count cm;
     fps_start_time := fps_start_time cm; detection_times := detection_times cm;
     current_detections := l;
     detection_frame_size := detection_frame_size cm |}.

(** The statistics update of a successful detection (the body of
    [if best_detection.confidence > confidence_threshold]). *)
Definition record_detection (cm : camera_manager) (ext : externals) (d : detection)
    : camera_manager :=
  let start_time := clock ext 0 in
  let count := S (detection_count cm) in
  let detection_time := (clock ext 1 - start_time)%Q in
  let times := deque_append 30 (detection_times cm) detection_time in
  let logging := (count mod 60 =? 0)%nat in
  let current_time := clock ext 2 in
  let elapsed := (current_time - fps_start_time cm)%Q in
  let reset := logging && Qltb 0 elapsed in
  {| model := model cm; is_active := is_active cm; tracking_enabled := tracking_enabled cm;
     frame_count := frame_count cm; detection_count := count;
     fps_start_time := if reset then current_time else fps_start_time cm;
     detection_times := if reset then [] else times;
     current_detections := [d];
     detection_frame_size := detection_frame_size cm |}.

Definition class_of (p : prediction) : string :=
  match pred_class_name p with
  | Some c => c
  | None => "hand"%string
  end.

Definition process_frame (cm : camera_manager) (ext : externals) (fr : option frame)
    (confidence_threshold : Q) : camera_manager * outcome (option detection) :=
  match tracking_enabled cm, model cm, fr with
  | true, Some infer, Some f =>
      (* with self.frame_lock: *)
      let cm1 := set_frame_count cm (S (frame_count cm)) in
      let height := frame_height f in
      let width := frame_width f in
      match cv2_resize ext f (detection_frame_size cm) with
      | None => (cm1, Raised)
      | Some detection_frame =>
          (* try: *)
          match infer detection_frame confidence_threshold with
          | InferRaises => (* except Exception: log *) (cm1, Returned None)
          | InferReturns [] => (cm1, Returned None)
          | InferReturns (result :: _) =>
              match res_predictions result with
              | None | Some [] => (cm1, Returned None)
              | Some (p :: ps) =>
                  let best_detection := max_confidence p ps in
                  if Qltb confidence_threshold (pred_confidence best_detection) then
                    let scale_x := (inject_Z (Z.of_nat width)
                                    / inject_Z (Z.of_nat (detection_frame_size cm)))%Q in
                    let scale_y := (inject_Z (Z.of_nat height)
                                    / inject_Z (Z.of_nat (detection_frame_size cm)))%Q in
                    let d := {| det_x := (pred_x best_detection * scale_x)%Q;
                                det_y := (pred_y best_detection * scale_y)%Q;
                                det_width := (pred_width best_detection * scale_x)%Q;
                                det_height := (pred_height best_detection * scale_y)%Q;
                                det_confidence := pred_confidence best_detection;
                                det_class := class_of best_detection |} in
                    (record_detection cm1 ext d, Returned (Some d))
                  else (cm1, Returned None)
              end
          end
      end
  | _, _, _ => (cm, Returned None)
  end.

(** ** Messages *)

(** The value of the [frame] (or [data]) field: a string, or some other JSON
    value, of which only the truth value matters. *)
Inductive payload : Type :=
| PText (s : string)
| PJunk (truthy : bool).

Record template_msg : Type := {
  tm_name : option string;
  tm_trajectory : option trajectory;
  tm_command : option string
}.

(** A JSON object, by the fields the handlers read. *)
Record message : Type := {
  msg_message_type : option string;
  msg_type : option string;
  msg_trajectory : option trajectory;
  msg_confidence_threshold : option Q;
  msg_templates : option (list template_msg);
  msg_force_process : option bool;
  msg_hand_detection_confidence : option Q;
  msg_gesture_recognition_confidence : option Q;
  msg_frame : option payload;
  msg_data : option payload
}.

(** A received text: not JSON, JSON that is not an object, or an object. *)
Inductive inbound : Type :=
| InvalidJson
| NotAnObject
| Object (m : message).

Inductive outbound : Type :=
| Pong (timestamp : Q)
| StatusReply (status message : string)
| InfoReply (message : string)
| GestureRecognized (template_name : string) (similarity : R) (command : string)
| GestureNotRecognized (message : string)
| ErrorReply (message : string)
| RecognitionFailed      (* type "error", "Failed to recognize gesture: " + str(e) *)
| ConnectionEstablished (hand_confidence gesture_confidence : Q)
| DetectionReply (d : option detection) (timestamp : Q) (source : option string)
| FrameReceived
| ConfidenceUpdated (hand_confidence gesture_confidence : Q).

(** The process-wide state: the camera manager and the two thresholds. *)
Record server : Type := {
  camera : camera_manager;
  current_hand_detection_confidence : Q;
  current_gesture_recognition_confidence : Q
}.

Definition with_camera (sv : server) (cm : camera_manager) : server :=
  {| camera := cm;
     current_hand_detection_confidence := current_hand_detection_confidence sv;
     current_gesture_recognition_confidence := current_gesture_recognition_confidence sv |}.

(** One turn of a handler's loop: the new server state, whether the handler
    is still running, and the messages sent, in order. *)
Record turn (C : Type) : Type := {
  turn_server : server;
  turn_conn : option C;            (* None: the handler has returned *)
  turn_sent : list outbound
}.
Arguments turn_server {C} t.
Arguments turn_conn {C} t.
Arguments turn_sent {C} t.

Definition eqs (a : option string) (b : string) : bool :=
  match a with
  | Some s => String.eqb s b
  | None => false
  end.

(** [a or b] on optional strings: the empty string and [None] are false. *)
Definition py_or (a b : option string) : option string :=
  match a with
  | Some EmptyString | None => b
  | Some _ => a
  end.

(** [str(x)] for an optional string. *)
Definition py_str (a : option string) : string :=
  match a with
  | Some s => s
  | None => "None"
  end.

Definition get_default {A} (o : option A) (d : A) : A :=
  match o with
  | Some a => a
  | None => d
  end.

(** ** [websocket_endpoint] ([/ws]) *)

(** The loop [for i, template in enumerate(templates)] that fills the
    temporary recognizer. *)
Fixpoint load_templates (d : templates) (i : nat) (l : list template_msg) : templates :=
  match l with
  | [] => d
  | t :: rest =>
      let template_name := get_default (tm_name t) "unknown"%string in
      let template_id :=
        ("temp_" ++ NilZero.string_of_uint (Nat.to_uint i) ++ "_" ++ template_name)%string in
      load_templates
        (add_template d template_id template_name (get_default (tm_trajectory t) []))
        (S i) rest
  end.

(** [next((t for t in templates if t.get("name") == name), {})
      .get("command", "")] *)
Fixpoint command_of (l : list template_msg) (name : string) : string :=
  match l with
  | [] => ""
  | t :: rest =>
      if eqs (tm_name t) name then get_default (tm_command t) ""%string
      else command_of rest name
  end.

(** The [recognize_gesture] branch: the message it sends. *)
Definition recognize_reply (sv : server) (m : message) : outbound :=
  let t := get_default (msg_trajectory m) [] in
  let confidence_threshold :=
    get_default (msg_confidence_threshold m) (current_gesture_recognition_confidence sv) in
  let tpls := get_default (msg_templates m) [] in
  if (length t <? 2)%nat then GestureNotRecognized "Trajectory must have at least 2 points"
  else if is_empty tpls then GestureNotRecognized "No templates provided for recognition"
  else
    let temp_recognizer := load_templates [] 0 tpls in
    match recognize_gesture temp_recognizer t (Q2R confidence_threshold) with
    | None => RecognitionFailed
    | Some None => GestureNotRecognized "No matching gesture found"
    | Some (Some r) =>
        GestureRecognized (match_name r) (match_confidence r) (command_of tpls (match_name r))
    end.

(** One turn of the loop of [websocket_endpoint], on the received text [i]. *)
Definition websocket_endpoint (sv : server) (ext : externals) (i : inbound) : turn unit :=
  match i with
  | InvalidJson | NotAnObject =>
      (* the exception leaves the loop *)
      {| turn_server := sv; turn_conn := None; turn_sent := [] |}
  | Object m =>
      let message_type := py_or (msg_message_type m) (msg_type m) in
      if eqs message_type "ping" then
        {| turn_server := sv; turn_conn := Some tt; turn_sent := [Pong (now ext)] |}
      else if eqs message_type "start_tracking" then
        {| turn_server := with_camera sv (set_tracking (camera sv) true);
           turn_conn := Some tt;
           turn_sent := [StatusReply "success" "Tracking started"] |}
      else if eqs message_type "stop_tracking" then
        {| turn_server :=
             with_camera sv (set_current_detections (set_tracking (camera sv) false) []);
           turn_conn := Some tt;
           turn_sent := [StatusReply "success" "Tracking stopped"] |}
      else if eqs message_type "save_template" then
        {| turn_server := sv; turn_conn := Some tt;
           turn_sent :=
             [InfoReply "Templates are now stored client-side only. Backend operates stateless."] |}
      else if eqs message_type "recognize_gesture" then
        {| turn_server := sv; turn_conn := Some tt; turn_sent := [recognize_reply sv m] |}
      else
        {| turn_server := sv; turn_conn := Some tt;
           turn_sent :=
             [StatusReply "error" ("Unknown message type: " ++ py_str message_type)] |}
  end.

(** ** [frame_stream_endpoint] ([/ws/frames]) *)

Record frame_conn : Type := {
  frame_skip_counter : Z;
  process_every_nth_frame : Q
}.

(** [0.5], and the double nearest to [0.2]. *)
Definition default_divisor : Q := 1 # 2.
Definition forced_divisor : Q := 3602879701896397 # 18014398509481984.

Definition frame_conn_init : frame_conn :=
  {| frame_skip_counter := 0; process_every_nth_frame := default_divisor |}.

(** The message sent when the connection is accepted. *)
Definition frame_stream_open (sv : server) : list outbound :=
  [ConnectionEstablished (current_hand_detection_confidence sv)
                         (current_gesture_recognition_confidence sv)].

(** [n % y] for an int [n] and a float [y]: [None] is ZeroDivisionError.
    The int becomes a float, and the float remainder is exact: it is
    [x - y * floor(x / y)] for the rational values of a non-negative [x] and
    a positive [y]. *)
Definition py_mod (n : Z) (y : Q) : option Q :=
  if Qeq_bool y 0 then None
  else Some (inject_Z n - y * inject_Z (Qfloor (inject_Z n / y)))%Q.

(** [should_process = frame_skip_counter % process_every_nth_frame == 0] *)
Definition should_process (counter : Z) (divisor : Q) : option bool :=
  match py_mod counter divisor with
  | Some r => Some (Qeq_bool r 0)
  | None => None
  end.

Definition truthy (p : option payload) : bool :=
  match p with
  | Some (PText EmptyString) | None => false
  | Some (PText _) => true
  | Some (PJunk b) => b
  end.

(** [message.get("frame") or message.get("data")] *)
Definition frame_field (m : message) : option payload :=
  if truthy (msg_frame m) then msg_frame m else msg_data m.

Definition comma : ascii := ","%char.

Fixpoint has_comma (s : string) : bool :=
  match s with
  | EmptyString => false
  | String c rest => Ascii.eqb c comma || has_comma rest
  end.

(** [s.split(',')], with the piece being read in [piece]. *)
Fixpoint split_commas (s piece : string) : list string :=
  match s with
  | EmptyString => [piece]
  | String c rest =>
      if Ascii.eqb c comma then piece :: split_commas rest EmptyString
      else split_commas rest (piece ++ String c EmptyString)
  end.

(** [frame_data.split(',')[1]] when there is a comma: what follows a data-URL
    header. *)
Definition base64_part (s : string) : string :=
  if has_comma s then nth 1 (split_commas s EmptyString) EmptyString else s.

(** The body of the inner [try] of the frame branch: decode and detect.
    The result is the new camera state and the value of [detection] after
    the [try] statement. *)
Definition decode_and_detect (sv : server) (ext : externals) (data : payload)
    : camera_manager * option detection :=
  match data with
  | PJunk _ => (* the decoding of a value that is not a string raises *) (camera sv, None)
  | PText s =>
      match b64_imdecode ext (base64_part s) with
      | DecodeRaises => (camera sv, None)
      | DecodeNone => (camera sv, None)
      | Decoded f =>
          match process_frame (camera sv) ext (Some f) (current_hand_detection_confidence sv) with
          | (cm, Returned d) => (cm, d)
          | (cm, Raised) => (cm, None)
          end
      end
  end.

(** [frame_skip_counter += 1] *)
Definition bump (c : frame_conn) : frame_conn :=
  {| frame_skip_counter := frame_skip_counter c + 1;
     process_every_nth_frame := process_every_nth_frame c |}.

(** One turn of the loop of [frame_stream_endpoint], on the received text
    [i], in the connection state [c]. *)
Definition frame_stream_endpoint (sv : server) (c : frame_conn) (ext : externals) (i : inbound)
    : turn frame_conn :=
  match i with
  | InvalidJson =>
      {| turn_server := sv; turn_conn := Some c;
         turn_sent := [ErrorReply "Invalid JSON format"] |}
  | NotAnObject =>
      (* [message.get] raises; the general handler answers *)
      {| turn_server := sv; turn_conn := Some c;
         turn_sent := [DetectionReply None (now ext) None] |}
  | Object m =>
      if eqs (msg_type m) "ping" then
        {| turn_server := sv; turn_conn := Some c; turn_sent := [Pong (now ext)] |}
      else if eqs (msg_type m) "refresh_detection" then
        let force_process := get_default (msg_force_process m) false in
        let cm := if tracking_enabled (camera sv) then camera sv
                  else set_tracking (camera sv) true in
        let c' := if force_process
                  then {| frame_skip_counter := frame_skip_counter c;
                          process_every_nth_frame := forced_divisor |}
                  else c in
        {| turn_server := with_camera sv cm; turn_conn := Some c';
           turn_sent :=
             [DetectionReply (hd_error (current_detections cm)) (now ext)
                             (Some "refresh_request"%string)] |}
      else if eqs (msg_type m) "update_confidence" then
        let hand := get_default (msg_hand_detection_confidence m)
                                (current_hand_detection_confidence sv) in
        let gesture := get_default (msg_gesture_recognition_confidence m)
                                   (current_gesture_recognition_confidence sv) in
        {| turn_server := {| camera := camera sv;
                             current_hand_detection_confidence := hand;
                             current_gesture_recognition_confidence := gesture |};
           turn_conn := Some c;
           turn_sent := [ConfidenceUpdated hand gesture] |}
      else if eqs (msg_type m) "frame" then
        let frame_data := frame_field m in
        let c' := bump c in
        match should_process (frame_skip_counter c') (process_every_nth_frame c') with
        | None =>
            (* ZeroDivisionError, before anything is sent *)
            {| turn_server := sv; turn_conn := Some c';
               turn_sent := [DetectionReply None (now ext) None] |}
        | Some go =>
            let '(cm, d) :=
              match frame_data with
              | Some data =>
                  if truthy frame_data && tracking_enabled (camera sv) && go
                  then decode_and_detect sv ext data
                  else (camera sv, None)
              | None => (camera sv, None)
              end in
            {| turn_server := with_camera sv cm; turn_conn := Some c';
               turn_sent := [FrameReceived; DetectionReply d (now ext) None] |}
        end
      else
        (* logger.warning only *)
        {| turn_server := sv; turn_conn := Some c; turn_sent := [] |}
  end.

(** The connection states that a run of the handler goes through. *)
Inductive reachable : frame_conn -> Prop :=
| reach_init : reachable frame_conn_init
| reach_step sv c ext i c' :
    reachable c ->
    turn_conn (frame_stream_endpoint sv c ext i) = Some c' ->
    reachable c'.

(** ** Notions of the specification *)

Open Scope R_scope.

(** *** Paths *)

(** The two coordinates of a point that has them. *)
Definition xy (p : point) : option (R * R) :=
  x <- item p 0 ;; y <- item p 1 ;; Some (x, y).

(** The coordinates of a trajectory all of whose points have two. *)
Fixpoint coords (t : trajectory) : option (list (R * R)) :=
  match t with
  | [] => Some []
  | p :: rest => c <- xy p ;; cs <- coords rest ;; Some (c :: cs)
  end.

(** Euclidean distance. *)
Definition dist (p q : R * R) : R :=
  sqrt ((fst q - fst p) * (fst q - fst p) + (snd q - snd p) * (snd q - snd p)).

(** Linear interpolation from [p] to [q]. *)
Definition lerp (p q : R * R) (r : R) : R * R :=
  (fst p + (fst q - fst p) * r, snd p + (snd q - snd p) * r).

(** Total length of the polyline through the points. *)
Fixpoint polyline_length (ps : list (R * R)) : R :=
  match ps with
  | p :: (q :: _) as rest => dist p q + polyline_length rest
  | _ => 0
  end.

(** Length of the polyline from its [k]-th point on. *)
Definition rest_len (ps : list (R * R)) (k : nat) : R := polyline_length (skipn k ps).

(** The point at arc length [d] along the polyline: in the first segment
    that reaches [d], by linear interpolation. *)
Fixpoint arc_point (ps : list (R * R)) (d : R) : option (R * R) :=
  match ps with
  | p :: (q :: _) as rest =>
      if Rle_dec d (dist p q)
      then if Rlt_dec 0 (dist p q) then Some (lerp p q (d / dist p q)) else Some p
      else arc_point rest (d - dist p q)
  | _ => None
  end.

(** The resampler's contract: [out] has [K] points, the first and last of
    [t], and its interior points at the arc lengths [i * length / (K - 1)]. *)
Definition equal_arc_resampling (t : trajectory) (ps : list (R * R)) (K : Z)
    (out : trajectory) : Prop :=
  Z.of_nat (length out) = K /\
  nth_error out 0 = nth_error t 0 /\
  nth_error out (length out - 1) = nth_error t (length t - 1) /\
  forall i, (1 <= i <= K - 2)%Z ->
    exists c, nth_error out (Z.to_nat i) = Some (PList [fst c; snd c]) /\
              arc_point ps (IZR i * (polyline_length ps / IZR (K - 1))) = Some c.

(** *** Bounding boxes *)

(** The values of one coordinate are not all the same. *)
Definition spread (vs : list R) : Prop :=
  exists a b, In a vs /\ In b vs /\ a <> b.

(** The values span exactly the interval from 0 to 1. *)
Definition unit_extent (vs : list R) : Prop :=
  (forall v, In v vs -> 0 <= v <= 1) /\ In 0 vs /\ In 1 vs.

Definition is_minimum (m : R) (vs : list R) : Prop :=
  In m vs /\ forall v, In v vs -> m <= v.

(** *** Similarity *)

(** Sum and mean of the distances between corresponding points. *)
Fixpoint total_distance (c1 c2 : list (R * R)) : R :=
  match c1, c2 with
  | p :: r1, q :: r2 => dist p q + total_distance r1 r2
  | _, _ => 0
  end.

Definition mean_distance (c1 c2 : list (R * R)) : R :=
  total_distance c1 c2 / INR (length c1).

(** The point count to which the matcher resamples. *)
Definition target_points (t1 t2 : trajectory) : Z :=
  Z.min 50 (Z.max (Z.of_nat (length t1)) (Z.of_nat (length t2))).

(** The similarity as the specification words it, with the divisor [m]:
    both trajectories resampled to [target_points], and
    [max(0, 1 - meanDistance / m)]. *)
Definition similarity_by (m : R) (t1 t2 : trajectory) (s : R) : Prop :=
  exists r1 r2 c1 c2,
    resample_trajectory t1 (target_points t1 t2) = Some r1 /\
    resample_trajectory t2 (target_points t1 t2) = Some r2 /\
    Z.of_nat (length r1) = target_points t1 t2 /\
    Z.of_nat (length r2) = target_points t1 t2 /\
    coords r1 = Some c1 /\ coords r2 = Some c2 /\
    s = Rmax 0 (1 - mean_distance c1 c2 / m).

(** *** Best match *)

(** The similarity of a template to the normalized input. *)
Definition score (input : trajectory) (e : string * template) : option R :=
  calculate_similarity input (tpl_trajectory (snd e)).

Definition match_of (e : string * template) (s : R) : gesture_match :=
  {| match_template_id := fst e; match_name := tpl_name (snd e);
     match_similarity := s; match_confidence := s |}.






(** *** Messages *)

(** The kinds of message that each endpoint knows. *)
Definition websocket_kinds : list string :=
  ["ping"; "start_tracking"; "stop_tracking"; "save_template"; "recognize_gesture"]%string.
Definition frame_stream_kinds : list string :=
  ["ping"; "refresh_detection"; "update_confidence"; "frame"]%string.

Definition unknown_to (kinds : list string) (k : option string) : Prop :=
  forall s, k = Some s -> ~ In s kinds.

(** The payload of a frame message does not decode to an image. *)
Definition undecodable (ext : externals) (m : message) : Prop :=
  match frame_field m with
  | Some (PText s) =>
      match b64_imdecode ext (base64_part s) with
      | Decoded _ => False
      | _ => True
      end
  | _ => True
  end.

(** ** Sample data *)

(** A trajectory of three collinear points, unevenly spaced. *)
Definition uneven : trajectory := [PList [0; 0]; PList [1; 0]; PList [4; 0]].
Definition uneven_coords : list (R * R) := [(0, 0); (1, 0); (4, 0)].

(** Trajectories as the normalizer returns them: a diagonal stroke, the same
    stroke drawn backwards, and a horizontal one. *)
Definition diagonal : trajectory := [PList [0; 0]; PList [1; 1]].
Definition level : trajectory := [PList [0; 0]; PList [1; 0]].

(** A raw trajectory of an object and an array, level on the second axis. *)
Definition mixed : trajectory := [PDict (Some 2) (Some 5); PList [6; 5]].

Definition level_templates : templates := add_template [] "temp_0_level" "level" level.

(** A detector that always raises, and an image. *)
Definition failing_detector : detector := fun _ _ => InferRaises.

Definition blank : frame :=
  {| frame_height := 480; frame_width := 640; frame_pixels := [] |}.

(** The camera manager as [__init__] leaves it, given the model and the
    tracking flag, and the server with the thresholds 0.75 and 0.85. *)
Definition camera_init (infer : option detector) (tracking : bool) : camera_manager :=
  {| model := infer; is_active := true; tracking_enabled := tracking;
     frame_count := 0; detection_count := 0; fps_start_time := 0%Q;
     detection_times := []; current_detections := []; detection_frame_size := 320 |}.

Definition server_init (infer : option detector) : server :=
  {| camera := camera_init infer true;
     current_hand_detection_confidence := (3 # 4)%Q;
     current_gesture_recognition_confidence := (17 # 20)%Q |}.

(** A world whose codec decodes every payload to [blank] and whose clock
    stands still. *)
Definition still_world : externals :=
  {| clock := fun _ => 0%Q; now := 0%Q;
     cv2_resize := fun f n =>
       Some {| frame_height := n; frame_width := n; frame_pixels := frame_pixels f |};
     b64_imdecode := fun _ => Decoded blank |}.

(** The message [{"type": k}]. *)
Definition message_of_type (k : string) : message :=
  {| msg_message_type := None; msg_type := Some k; msg_trajectory := None;
     msg_confidence_threshold := None; msg_templates := None; msg_force_process := None;
     msg_hand_detection_confidence := None; msg_gesture_recognition_confidence := None;
     msg_frame := None; msg_data := None |}.

Close Scope R_scope.

(** ** The rest of [HighPerformanceCameraManager], and [health_check] *)

(** [initialize_model]: the model is loaded when the inference library and an
    API key are there; [loaded] is what [get_model] gives, [None] when it
    raises. *)
Definition initialize_model (cm : camera_manager) (inference_available : bool)
    (api_key : string) (loaded : option detector) : camera_manager :=
  if inference_available && negb (String.eqb api_key "") then
    {| model := loaded; is_active := is_active cm; tracking_enabled := tracking_enabled cm;
       frame_count := frame_count cm; detection_count := detection_count cm;
       fps_start_time := fps_start_time cm; detection_times := detection_times cm;
       current_detections := current_detections cm;
       detection_frame_size := detection_frame_size cm |}
  else cm.

(** [release] *)
Definition release (cm : camera_manager) : camera_manager :=
  {| model := None; is_active := false; tracking_enabled := tracking_enabled cm;
     frame_count := frame_count cm; detection_count := detection_count cm;
     fps_start_time := fps_start_time cm; detection_times := detection_times cm;
     current_detections := current_detections cm;
     detection_frame_size := detection_frame_size cm |}.

(** The answer of [health_check]. *)
Record health : Type := {
  health_status : string;
  health_tracking_enabled : bool;
  health_frames_processed : nat;
  health_detections_made : nat;
  health_inference_available : bool;
  health_model_loaded : bool
}.

Definition health_check (sv : server) (inference_available : bool) : health :=
  {| health_status := "healthy";
     health_tracking_enabled := tracking_enabled (camera sv);
     health_frames_processed := frame_count (camera sv);
     health_detections_made := detection_count (camera sv);
     health_inference_available := inference_available;
     health_model_loaded := match model (camera sv) with Some _ => true | None => false end |}.

(** [int(q)]: the integer towards zero. *)
Definition py_int (q : Q) : Z := if Qle_bool 0 q then Qfloor q else Qceiling q.

(** A colour, blue, green, red. *)
Definition colour : Type := (Z * Z * Z)%type.

Inductive drawing : Type :=
| Rectangle (x1 y1 x2 y2 : Z) (c : colour) (thickness : Z)
| Text (confidence : Q) (x y : Z) (c : colour).

(** The colour of a box, by its confidence. *)
Definition box_colour (confidence : Q) : colour :=
  if Qltb (7 # 10) confidence then (0, 255, 0)%Z
  else if Qltb (1 # 2) confidence then (0, 255, 255)%Z
  else (0, 165, 255)%Z.

(** The corners [x1, y1, x2, y2] of the box of a detection, kept inside the
    frame. *)
Definition box_corners (f : frame) (d : detection) : Z * Z * Z * Z :=
  let x := det_x d in
  let y := det_y d in
  let w := det_width d in
  let h := det_height d in
  let x1 := Z.max 0 (py_int (x - w / 2)) in
  let y1 := Z.max 0 (py_int (y - h / 2)) in
  let x2 := Z.min (Z.of_nat (frame_width f)) (py_int (x + w / 2)) in
  let y2 := Z.min (Z.of_nat (frame_height f)) (py_int (y + h / 2)) in
  (x1, y1, x2, y2).

(** [_draw_detections_fast]: what is drawn on the frame, in order. *)
Definition draw_detections_fast (f : frame) (detections : list detection) : list drawing :=
  flat_map
    (fun d =>
       let '(x1, y1, x2, y2) := box_corners f d in
       let c := box_colour (det_confidence d) in
       [Rectangle x1 y1 x2 y2 c 2; Text (det_confidence d) x1 (y1 - 5) c])
    detections.

(** ** Notions of the further properties *)

(** A camera manager as [__init__] leaves it. *)
Definition fresh (cm : camera_manager) : Prop :=
  tracking_enabled cm = true /\ frame_count cm = 0%nat /\ detection_count cm = 0%nat /\
  detection_times cm = [] /\ current_detections cm = [].

(** The server states of a run: from start-up on, through turns of the two
    handlers, loads of the model and the release at shutdown. *)
Inductive run : server -> Prop :=
| run_start sv : fresh (camera sv) -> run sv
| run_websocket sv ext i : run sv -> run (turn_server (websocket_endpoint sv ext i))
| run_frame_stream sv c ext i : run sv -> run (turn_server (frame_stream_endpoint sv c ext i))
| run_initialize sv available key loaded :
    run sv -> run (with_camera sv (initialize_model (camera sv) available key loaded))
| run_release sv : run sv -> run (with_camera sv (release (camera sv))).

(** The numerator of the double nearest to 0.2, in lowest terms. *)
Definition forced_numerator : Z := 3602879701896397.

(** [getattr(result, 'predictions', [])] *)
Definition predictions_of (r : infer_result) : list prediction :=
  match res_predictions r with
  | Some l => l
  | None => []
  end.

(** The rescaling of a prediction from the inference size to the frame. *)
Definition rescaled (size : nat) (f : frame) (p : prediction) (d : detection) : Prop :=
  let scale_x := (inject_Z (Z.of_nat (frame_width f)) / inject_Z (Z.of_nat size))%Q in
  let scale_y := (inject_Z (Z.of_nat (frame_height f)) / inject_Z (Z.of_nat size))%Q in
  det_x d = (pred_x p * scale_x)%Q /\ det_y d = (pred_y p * scale_y)%Q /\
  det_width d = (pred_width p * scale_x)%Q /\ det_height d = (pred_height p * scale_y)%Q /\
  det_confidence d = pred_confidence p /\ det_class d = class_of p.

(** [self.templates.get(k)] *)
Fixpoint dict_get (d : templates) (k : string) : option template :=
  match d with
  | [] => None
  | (k', v) :: rest => if String.eqb k' k then Some v else dict_get rest k
  end.

(** What [add_template] keeps true of a recognizer: ids are not repeated,
    every template is filed under its own id, its point count is the number
    of its points, and its trajectory is in normalized form. *)
Definition well_kept (d : templates) : Prop :=
  NoDup (map fst d) /\
  forall k tpl, In (k, tpl) d ->
    tpl_id tpl = k /\ tpl_point_count tpl = length (tpl_trajectory tpl) /\
    normalize_trajectory (tpl_trajectory tpl) = tpl_trajectory tpl.

(** [f"temp_{i}_{name}"] *)
Definition template_key (i : nat) (name : string) : string :=
  ("temp_" ++ NilZero.string_of_uint (Nat.to_uint i) ++ "_" ++ name)%string.

(** The entry that [add_template] makes of the [i]-th template sent. *)
Definition loaded (i : nat) (tm : template_msg) : string * template :=
  let name := get_default (tm_name tm) "unknown"%string in
  let normalized := normalize_trajectory (get_default (tm_trajectory tm) []) in
  (template_key i name,
   {| tpl_id := template_key i name; tpl_name := name;
      tpl_trajectory := normalized; tpl_point_count := length normalized |}).

(** [enumerate(l)], counting from [i]. *)
Fixpoint enumerate_from {A} (i : nat) (l : list A) : list (nat * A) :=
  match l with
  | [] => []
  | x :: rest => (i, x) :: enumerate_from (S i) rest
  end.

(** Whether [_] occurs in [s]. *)
Fixpoint has_underscore (s : string) : bool :=
  match s with
  | EmptyString => false
  | String c rest => Ascii.eqb c "_" || has_underscore rest
  end.

Open Scope R_scope.

(** The scaling of one axis, as [normalize_trajectory] does it. *)
Definition axis_divisor (vs : list R) : R :=
  if Rgt_dec (py_max vs) (py_min vs) then py_max vs - py_min vs else 1.

(** Both axes scaled, as [normalize_trajectory] does it. *)
Definition scale_points (ps : list (R * R)) : list (R * R) :=
  map (fun c => ((fst c - py_min (map fst ps)) / axis_divisor (map fst ps),
                 (snd c - py_min (map snd ps)) / axis_divisor (map snd ps))) ps.

(** A point stretched by [kx], [ky] and moved by [ax], [ay]; points that the
    normalizer skips are left alone. *)
Definition stretch (kx ky ax ay : R) (p : point) : point :=
  match p with
  | PDict x y =>
      PDict (Some (kx * match x with Some v => v | None => 0 end + ax))
            (Some (ky * match y with Some v => v | None => 0 end + ay))
  | PList (x :: y :: rest) => PList (kx * x + ax :: ky * y + ay :: rest)
  | _ => p
  end.

(** A trajectory whose usable points are not all the same. *)
Definition drawable (t : trajectory) : Prop :=
  spread (map fst (convert t)) \/ spread (map snd (convert t)).

Close Scope R_scope.

(** ** Further sample data *)

(** A detector that sees one hand, with confidence 0.9, in the middle of
    the image it is given. *)
Definition hand_prediction : prediction :=
  {| pred_x := 160; pred_y := 160; pred_width := 80; pred_height := 80;
     pred_confidence := 9 # 10; pred_class_name := Some "hand"%string |}.

Definition one_hand : detector :=
  fun _ _ => InferReturns [{| res_predictions := Some [hand_prediction] |}].

(** The detection that [process_frame] makes of [hand_prediction] on
    [blank]. *)
Definition hand_detection : detection :=
  {| det_x := 160 * (640 / 320); det_y := 160 * (480 / 320);
     det_width := 80 * (640 / 320); det_height := 80 * (480 / 320);
     det_confidence := 9 # 10; det_class := "hand" |}.

(** A server that holds [hand_detection] and whose detector raises. *)
Definition tracked_server : server :=
  with_camera (server_init (Some failing_detector))
    (set_current_detections (camera_init (Some failing_detector) true) [hand_detection]).

(** A connection after a forced refresh. *)
Definition forced_conn : frame_conn :=
  {| frame_skip_counter := 0; process_every_nth_frame := forced_divisor |}.

(** The message [{"type": "frame", "frame": s}]. *)
Definition frame_message (s : string) : message :=
  {| msg_message_type := None; msg_type := Some "frame"%string; msg_trajectory := None;
     msg_confidence_threshold := None; msg_templates := None; msg_force_process := None;
     msg_hand_detection_confidence := None; msg_gesture_recognition_confidence := None;
     msg_frame := Some (PText s); msg_data := None |}.

(** The message [{"type": "recognize_gesture", "trajectory": t,
    "templates": l}]. *)
Definition recognize_message (t : trajectory) (l : list template_msg) : message :=
  {| msg_message_type := None; msg_type := Some "recognize_gesture"%string;
     msg_trajectory := Some t;
     msg_confidence_threshold := None; msg_templates := Some l; msg_force_process := None;
     msg_hand_detection_confidence := None; msg_gesture_recognition_confidence := None;
     msg_frame := None; msg_data := None |}.

Definition level_template_msg : template_msg :=
  {| tm_name := Some "level"%string; tm_trajectory := Some level; tm_command := None |}.

(** A template of one point. *)
Definition dot_template_msg : template_msg :=
  {| tm_name := Some "dot"%string; tm_trajectory := Some [PList [0%R; 0%R]];
     tm_command := None |}.

Open Scope R_scope.





Close Scope R_scope.

(** The message [{"type": "refresh_detection", "force_process": true}]. *)
Definition forced_refresh : message :=
  {| msg_message_type := None; msg_type := Some "refresh_detection"%string;
     msg_trajectory := None;
     msg_confidence_threshold := None; msg_templates := None; msg_force_process := Some true;
     msg_hand_detection_confidence := None; msg_gesture_recognition_confidence := None;
     msg_frame := None; msg_data := None |}.

(** A world whose codec raises on every payload. *)
Definition broken_world : externals :=
  {| clock := fun _ => 0%Q; now := 0%Q;
     cv2_resize := fun f n =>
       Some {| frame_height := n; frame_width := n; frame_pixels := frame_pixels f |};
     b64_imdecode := fun _ => DecodeRaises |}.

(** The server after [n] more frame messages with payload [abc] on a
    connection in the state [c], in [still_world]. *)
Fixpoint feed (n : nat) (sv : server) (c : frame_conn) : server :=
  match n with
  | O => sv
  | S k =>
      let t := frame_stream_endpoint sv c still_world (Object (frame_message "abc")) in
      feed k (turn_server t) (match turn_conn t with Some c' => c' | None => c end)
  end.

(** ** Theorems *)

Open Scope R_scope.

(** *** The resampler *)

Lemma walk_eq (t : trajectory) (target cd : R) (idx : nat) :
  walk t target cd idx =
  if Rlt_dec cd target then
    if lt_dec idx (length t - 1) then
      match delta t (idx + 1) idx with
      | None => None
      | Some d =>
          if Rge_dec (cd + norm2 d) target then
            if Rgt_dec (norm2 d) 0 then
              x0 <- coord t idx 0 ;; y0 <- coord t idx 1 ;;
              Some (cd, idx, Some (PList [x0 + fst d * ((target - cd) / norm2 d);
                                          y0 + snd d * ((target - cd) / norm2 d)]))
            else p <- nth_error t idx ;; Some (cd, idx, Some p)
          else walk t target (cd + norm2 d) (idx + 1)
      end
    else Some (cd, idx, None)
  else Some (cd, idx, None).
Proof.
  rewrite walk_equation_1.
  destruct (Rlt_dec cd target) as [Hlt|Hlt]; simpl.
  - destruct (lt_dec idx (length t - 1)) as [Hi|Hi]; simpl.
    + destruct (delta t (idx + 1) idx) as [d|]; simpl; reflexivity.
    + reflexivity.
  - reflexivity.
Qed.

Lemma coords_length t ps : coords t = Some ps -> length ps = length t.
Proof.
  revert ps. induction t as [|p t IH]; simpl; intros ps H.
  - injection H as <-. reflexivity.
  - destruct (xy p); simpl in H; [|discriminate].
    destruct (coords t); simpl in H; [|discriminate].
    injection H as <-. simpl. f_equal. auto.
Qed.

Lemma coords_nth t ps i c :
  coords t = Some ps -> nth_error ps i = Some c ->
  coord t i 0 = Some (fst c) /\ coord t i 1 = Some (snd c).
Proof.
  revert ps i. induction t as [|p t IH]; simpl; intros ps i H Hn.
  - injection H as <-. destruct i; discriminate.
  - destruct (xy p) as [c0|] eqn:Exy; simpl in H; [|discriminate].
    destruct (coords t) as [cs|] eqn:Ecs; simpl in H; [|discriminate].
    injection H as <-. destruct i as [|i]; simpl in Hn.
    + injection Hn as <-. unfold coord. simpl. unfold xy in Exy.
      destruct (item p 0); simpl in Exy; [|discriminate].
      destruct (item p 1); simpl in Exy; [|discriminate].
      injection Exy as <-. auto.
    + unfold coord in *. simpl. eapply IH; eauto.
Qed.

Lemma delta_coords t ps i j a b :
  coords t = Some ps -> nth_error ps i = Some a -> nth_error ps j = Some b ->
  delta t i j = Some (fst a - fst b, snd a - snd b).
Proof.
  intros H Ha Hb. unfold delta.
  destruct (coords_nth _ _ _ _ H Ha) as [-> ->].
  destruct (coords_nth _ _ _ _ H Hb) as [-> ->]. reflexivity.
Qed.

Lemma norm2_dist a b : norm2 (fst a - fst b, snd a - snd b) = dist b a.
Proof. reflexivity. Qed.

Lemma dist_nonneg p q : 0 <= dist p q.
Proof. apply sqrt_pos. Qed.

Lemma skipn_two {A} (l : list A) k a b :
  nth_error l k = Some a -> nth_error l (S k) = Some b ->
  exists r, skipn k l = a :: b :: r.
Proof.
  revert l. induction k as [|k IH]; intros [|x l] Ha Hb; simpl in *; try discriminate.
  - injection Ha as ->. destruct l; simpl in Hb; [discriminate|]. injection Hb as ->. eauto.
  - apply IH; assumption.
Qed.

Lemma rest_len_step ps k a b :
  nth_error ps k = Some a -> nth_error ps (S k) = Some b ->
  rest_len ps k = dist a b + rest_len ps (S k).
Proof.
  intros Ha Hb. unfold rest_len.
  destruct (skipn_two _ _ _ _ Ha Hb) as [r Hr].
  assert (Hs : skipn (S k) ps = b :: r).
  { replace (S k) with (1 + k)%nat by lia. rewrite <- skipn_skipn, Hr. reflexivity. }
  rewrite Hr, Hs. reflexivity.
Qed.

Lemma rest_len_last ps k : (length ps - 1 <= k)%nat -> rest_len ps k = 0.
Proof.
  intros H. unfold rest_len.
  destruct (skipn k ps) as [|a [|b r]] eqn:E; try reflexivity.
  exfalso. assert (Hl : (length (skipn k ps) = 2 + length r)%nat) by (rewrite E; reflexivity).
  rewrite length_skipn in Hl. lia.
Qed.

Lemma rest_len_le ps k : rest_len ps k <= polyline_length ps.
Proof.
  unfold rest_len. revert ps. induction k as [|k IH]; intros ps; simpl.
  - lra.
  - destruct ps as [|p [|q r]]; simpl; try lra.
    + rewrite skipn_nil. simpl. lra.
    + specialize (IH (q :: r)). pose proof (dist_nonneg p q). simpl in IH. lra.
Qed.

Lemma nth_error_some_lt {A} (l : list A) k : (k < length l)%nat -> exists a, nth_error l k = Some a.
Proof.
  intros H. destruct (nth_error l k) eqn:E; [eauto|].
  apply nth_error_None in E. lia.
Qed.

Lemma arc_point_cons p q r d :
  arc_point (p :: q :: r) d =
  if Rle_dec d (dist p q)
  then if Rlt_dec 0 (dist p q) then Some (lerp p q (d / dist p q)) else Some p
  else arc_point (q :: r) (d - dist p q).
Proof. reflexivity. Qed.

Lemma arc_skip : forall k ps d,
  polyline_length ps - rest_len ps k < d ->
  arc_point ps d = arc_point (skipn k ps) (d - (polyline_length ps - rest_len ps k)).
Proof.
  induction k as [|k IH]; intros ps d H.
  - unfold rest_len. simpl. f_equal. lra.
  - destruct ps as [|p [|q r]].
    + reflexivity.
    + simpl. rewrite skipn_nil. reflexivity.
    + unfold rest_len in *. cbn [skipn] in *.
      change (polyline_length (p :: q :: r)) with (dist p q + polyline_length (q :: r)) in *.
      pose proof (rest_len_le (q :: r) k) as Hle. unfold rest_len in Hle.
      rewrite arc_point_cons. destruct (Rle_dec d (dist p q)) as [Hd|Hd]; [lra|].
      rewrite IH by lra. f_equal. lra.
Qed.

Lemma coords_in t ps p : coords t = Some ps -> In p t -> exists c, xy p = Some c.
Proof.
  revert ps. induction t as [|x t IH]; simpl; intros ps H Hin; [contradiction|].
  destruct (xy x) as [c|] eqn:Ex; simpl in H; [|discriminate].
  destruct (coords t) as [cs|]; simpl in H; [|discriminate].
  destruct Hin as [<-|Hin]; [eauto|]. eapply IH; eauto.
Qed.

Lemma coords_exists l : (forall p, In p l -> exists c, xy p = Some c) -> exists cs, coords l = Some cs.
Proof.
  induction l as [|p l IH]; intros H; simpl; [eauto|].
  destruct (H p) as [c ->]; [left; reflexivity|].
  destruct IH as [cs ->]; [intros q Hq; apply H; right; assumption|].
  simpl. eauto.
Qed.

(** Facts about one trajectory [t], all of whose points have two
    coordinates, [ps]. *)
Section OneTrajectory.

Variable t : trajectory.
Variable ps : list (R * R).
Hypothesis Hc : coords t = Some ps.

Lemma sum_segments_coords :
  forall n a acc, (1 <= a)%nat -> (a + n <= length ps)%nat ->
  sum_segments t (seq a n) acc = Some (acc + (rest_len ps (a - 1) - rest_len ps (a - 1 + n))).
Proof.
  induction n as [|n IH]; intros a acc Ha Hn; simpl.
  - f_equal. rewrite Nat.add_0_r. lra.
  - destruct (nth_error_some_lt ps (a - 1)) as [p Hp]; [lia|].
    destruct (nth_error_some_lt ps a) as [q Hq]; [lia|].
    rewrite (delta_coords _ _ _ _ _ _ Hc Hq Hp). simpl.
    rewrite norm2_dist, IH by lia. f_equal.
    replace a with (S (a - 1)) in Hq by lia.
    rewrite (rest_len_step _ _ _ _ Hp Hq).
    replace (S a - 1)%nat with (S (a - 1)) by lia.
    replace (a - 1 + S n)%nat with (S (a - 1) + n)%nat by lia. lra.
Qed.

Lemma path_length_coords : path_length t = Some (polyline_length ps).
Proof.
  unfold path_length. pose proof (coords_length _ _ Hc) as Hlen.
  destruct (Nat.eq_dec (length t) 0) as [E|E].
  - rewrite E. destruct ps; [reflexivity | simpl in Hlen; lia].
  - rewrite sum_segments_coords by lia.
    f_equal. simpl. rewrite (rest_len_last ps (length t - 1)) by lia.
    unfold rest_len. simpl. lra.
Qed.

Lemma walk_spec target :
  forall m idx cd,
  (m = length t - 1 - idx)%nat ->
  (idx < length t - 1)%nat ->
  cd < target ->
  target - cd <= rest_len ps idx ->
  exists idx' c,
    walk t target cd idx =
      Some (cd + (rest_len ps idx - rest_len ps idx'), idx', Some (PList [fst c; snd c])) /\
    (idx <= idx' < length t - 1)%nat /\
    cd + (rest_len ps idx - rest_len ps idx') < target /\
    arc_point (skipn idx ps) (target - cd) = Some c.
Proof.
  pose proof (coords_length _ _ Hc) as Hlen.
  induction m as [|m IH]; intros idx cd Hm Hidx Hcd Hrest; [lia|].
  destruct (nth_error_some_lt ps idx) as [p Hp]; [lia|].
  destruct (nth_error_some_lt ps (S idx)) as [q Hq]; [lia|].
  rewrite walk_eq.
  destruct (Rlt_dec cd target) as [_|]; [|contradiction].
  destruct (lt_dec idx (length t - 1)) as [_|]; [|contradiction].
  replace (idx + 1)%nat with (S idx) by lia.
  rewrite (delta_coords _ _ _ _ _ _ Hc Hq Hp), norm2_dist.
  rewrite (rest_len_step _ _ _ _ Hp Hq) in Hrest.
  destruct (skipn_two _ _ _ _ Hp Hq) as [r Hr].
  destruct (Rge_dec (cd + dist p q) target) as [Hge|Hge].
  - destruct (Rgt_dec (dist p q) 0) as [Hpos|Hpos]; [|lra].
    destruct (coords_nth _ _ _ _ Hc Hp) as [-> ->]. simpl.
    exists idx, (lerp p q ((target - cd) / dist p q)). repeat split; try lia.
    + do 3 f_equal. lra.
    + lra.
    + rewrite Hr, arc_point_cons.
      destruct (Rle_dec (target - cd) (dist p q)) as [_|]; [|lra].
      destruct (Rlt_dec 0 (dist p q)) as [_|]; [|lra]. reflexivity.
  - assert (Hlt : cd + dist p q < target) by lra.
    assert (Hpos : 0 < rest_len ps (S idx)) by lra.
    assert (Hidx' : (S idx < length t - 1)%nat).
    { destruct (lt_dec (S idx) (length t - 1)); [assumption|].
      rewrite rest_len_last in Hpos by lia. lra. }
    destruct (IH (S idx) (cd + dist p q)) as (idx' & c & Hw & Hi & Hcd' & Harc);
      try lia; try lra.
    exists idx', c. rewrite Hw. repeat split; try lia.
    + do 3 f_equal. rewrite (rest_len_step _ _ _ _ Hp Hq). lra.
    + rewrite (rest_len_step _ _ _ _ Hp Hq). lra.
    + rewrite Hr, arc_point_cons.
      destruct (Rle_dec (target - cd) (dist p q)) as [|_]; [lra|].
      replace (q :: r) with (skipn (S idx) ps).
      2:{ replace (S idx) with (1 + idx)%nat by lia. rewrite <- skipn_skipn, Hr. reflexivity. }
      rewrite <- Harc. f_equal. lra.
Qed.

Lemma resample_loop_spec td :
  0 < td ->
  forall n a idx cd acc,
  (idx < length t - 1)%nat ->
  cd = polyline_length ps - rest_len ps idx ->
  cd < INR a * td ->
  INR (a + n) * td <= polyline_length ps ->
  exists pts,
    resample_loop t td (seq a n) cd idx acc = Some (acc ++ pts) /\
    length pts = n /\
    forall k, (k < n)%nat ->
      exists c, nth_error pts k = Some (PList [fst c; snd c]) /\
                arc_point ps (INR (a + k) * td) = Some c.
Proof.
  intros Htd. induction n as [|n IH]; intros a idx cd acc Hidx Hcd Hlt Hle.
  - exists []. simpl. rewrite app_nil_r. split; [reflexivity|]. split; [reflexivity|].
    intros k Hk; lia.
  - assert (Hmono : INR a * td <= INR (a + S n) * td).
    { apply Rmult_le_compat_r; [lra|]. apply le_INR. lia. }
    assert (Hrest : INR a * td - cd <= rest_len ps idx) by lra.
    destruct (walk_spec (INR a * td) _ idx cd eq_refl Hidx Hlt Hrest)
      as (idx' & c & Hw & Hi & Hcd' & Harc).
    cbn [seq resample_loop]. rewrite Hw. cbn [bind].
    assert (Hnext : cd + (rest_len ps idx - rest_len ps idx') < INR (S a) * td).
    { apply Rlt_trans with (INR a * td); [lra|].
      apply Rmult_lt_compat_r; [lra|]. apply lt_INR. lia. }
    assert (Hle' : INR (S a + n) * td <= polyline_length ps).
    { replace (S a + n)%nat with (a + S n)%nat by lia. assumption. }
    assert (Hinv : cd + (rest_len ps idx - rest_len ps idx') =
                   polyline_length ps - rest_len ps idx') by lra.
    assert (Hidx' : (idx' < length t - 1)%nat) by lia.
    destruct (IH (S a) idx' _ (acc ++ [PList [fst c; snd c]]) Hidx' Hinv Hnext Hle')
      as (pts & Hloop & Hlen & Hpts).
    exists (PList [fst c; snd c] :: pts). rewrite Hloop, <- app_assoc. simpl.
    split; [reflexivity|]. split; [lia|]. intros [|k] Hk.
    + exists c. split; [reflexivity|]. rewrite Nat.add_0_r.
      rewrite (arc_skip idx) by lra. rewrite <- Harc. f_equal. lra.
    + destruct (Hpts k) as (c' & Hn & Ha); [lia|]. exists c'. split; [assumption|].
      replace (a + S k)%nat with (S a + k)%nat by lia. assumption.
Qed.

Lemma resample_interior K :
  (2 <= length t)%nat ->
  0 < polyline_length ps ->
  (2 <= K)%Z ->
  Z.of_nat (length t) <> K ->
  exists first final pts,
    nth_error t 0 = Some first /\
    nth_error t (length t - 1) = Some final /\
    resample_trajectory t K = Some (first :: pts ++ [final]) /\
    length pts = Z.to_nat (K - 2) /\
    forall k, (k < Z.to_nat (K - 2))%nat ->
      exists c, nth_error pts k = Some (PList [fst c; snd c]) /\
                arc_point ps (INR (1 + k) * (polyline_length ps / IZR (K - 1))) = Some c.
Proof.
  intros Hlen Hpos HK Hne.
  destruct (nth_error_some_lt t 0) as [first Hfirst]; [lia|].
  destruct (nth_error_some_lt t (length t - 1)) as [final Hfinal]; [lia|].
  assert (HK1 : 0 < IZR (K - 1)) by (apply IZR_lt; lia).
  assert (Htd : 0 < polyline_length ps / IZR (K - 1)) by (apply Rdiv_lt_0_compat; assumption).
  destruct (resample_loop_spec _ Htd (Z.to_nat (K - 2)) 1 0 0 [first])
    as (pts & Hloop & Hl & Hpts).
  - lia.
  - unfold rest_len. simpl. lra.
  - simpl. lra.
  - rewrite INR_IZR_INZ. replace (Z.of_nat (1 + Z.to_nat (K - 2))) with (K - 1)%Z by lia.
    right. field. lra.
  - exists first, final, pts. repeat split; try assumption.
    unfold resample_trajectory.
    replace (length t <=? 1)%nat with false by (symmetry; apply Nat.leb_gt; lia).
    replace (K <=? 1)%Z with false by (symmetry; apply Z.leb_gt; lia).
    replace (Z.of_nat (length t) =? K)%Z with false by (symmetry; apply Z.eqb_neq; assumption).
    cbn [orb]. rewrite path_length_coords. cbn [bind].
    destruct (Req_dec_T (polyline_length ps) 0) as [E|_]; [lra|].
    rewrite Hfirst. cbn [bind]. rewrite Hloop. cbn [bind]. rewrite Hfinal. cbn [bind].
    reflexivity.
Qed.


End OneTrajectory.

Lemma sum_segments_defined t : forall ixs acc L,
  sum_segments t ixs acc = Some L ->
  forall i, In i ixs -> exists d, delta t i (i - 1) = Some d.
Proof.
  induction ixs as [|k ixs IH]; intros acc L H i Hi; [destruct Hi|].
  simpl in H. destruct (delta t k (k - 1)) as [d|] eqn:Ed; simpl in H; [|discriminate].
  destruct Hi as [<-|Hi]; [eauto|]. eapply IH; eassumption.
Qed.

Lemma delta_defined t i j d :
  delta t i j = Some d ->
  (exists p c, nth_error t i = Some p /\ xy p = Some c) /\
  (exists p c, nth_error t j = Some p /\ xy p = Some c).
Proof.
  unfold delta, coord, xy. intros H.
  destruct (nth_error t i) as [p|]; simpl in H; [|discriminate].
  destruct (item p 0) as [x1|] eqn:E1; simpl in H; [|discriminate].
  destruct (nth_error t j) as [q|]; simpl in H; [|discriminate].
  destruct (item q 0) as [x0|] eqn:E0; simpl in H; [|discriminate].
  destruct (item p 1) as [y1|] eqn:F1; simpl in H; [|discriminate].
  destruct (item q 1) as [y0|] eqn:F0; simpl in H; [|discriminate].
  split; eexists; eexists; (split; [reflexivity|]).
  - rewrite E1, F1. reflexivity.
  - rewrite E0, F0. reflexivity.
Qed.

Lemma path_length_defined t L :
  (2 <= length t)%nat -> path_length t = Some L -> exists ps, coords t = Some ps.
Proof.
  intros Hlen H. apply coords_exists. intros p Hp.
  apply In_nth_error in Hp as [k Hk].
  assert (Hk' : (k < length t)%nat) by (apply nth_error_Some; congruence).
  unfold path_length in H.
  destruct k as [|k].
  - destruct (sum_segments_defined t _ _ _ H 1%nat) as [d Hd]; [apply in_seq; lia|].
    destruct (delta_defined t _ _ _ Hd) as [_ (q & c & Hq & Hc)].
    change (1 - 1)%nat with 0%nat in Hq. rewrite Hk in Hq. injection Hq as <-. eauto.
  - destruct (sum_segments_defined t _ _ _ H (S k)) as [d Hd]; [apply in_seq; lia|].
    destruct (delta_defined t _ _ _ Hd) as [(q & c & Hq & Hc) _].
    rewrite Hk in Hq. injection Hq as <-. eauto.
Qed.

(** C9: resampling to the current length returns the input unchanged, and so
    does resampling a trajectory of at most one point, or to a target count
    of at most 1. *)
Theorem resample_short_circuit (t : trajectory) (target_count : Z) :
  ((length t <= 1)%nat \/ (target_count <= 1)%Z \/ Z.of_nat (length t) = target_count) ->
  resample_trajectory t target_count = Some t.
Proof.
  intros H. unfold resample_trajectory.
  destruct ((length t <=? 1)%nat || (target_count <=? 1)%Z) eqn:E; [reflexivity|].
  apply orb_false_elim in E as [E1 E2].
  apply Nat.leb_gt in E1. apply Z.leb_gt in E2.
  destruct H as [H | [H | H]]; [lia | lia |].
  rewrite (proj2 (Z.eqb_eq _ _) H). reflexivity.
Qed.

Lemma resample_short_circuit_witness :
  resample_trajectory uneven 3 = Some uneven.
Proof.
  apply (resample_short_circuit uneven 3). right. right. reflexivity.
Defined.

Lemma dist_horizontal a b y : dist (a, y) (b, y) = Rabs (b - a).
Proof.
  unfold dist. simpl.
  replace ((b - a) * (b - a) + (y - y) * (y - y)) with (Rsqr (b - a)) by (unfold Rsqr; ring).
  apply sqrt_Rsqr_abs.
Qed.

Lemma uneven_length : polyline_length uneven_coords = 4.
Proof.
  unfold uneven_coords. simpl. rewrite !dist_horizontal.
  rewrite !Rabs_right by lra. lra.
Qed.

(** C1 (as amended): for a trajectory of at least 2 points, of positive path
    length, and a target count [K >= 2] other than its number of points, the
    resampler returns [K] points: the first and the last of the input, and
    between them the points at arc lengths [i * length / (K - 1)], each by
    linear interpolation in its segment. *)
Theorem resample_equal_arc_length (t : trajectory) (K : Z) (total_length : R) :
  (2 <= length t)%nat ->
  path_length t = Some total_length ->
  0 < total_length ->
  (2 <= K)%Z ->
  Z.of_nat (length t) <> K ->
  exists out ps,
    coords t = Some ps /\ polyline_length ps = total_length /\
    resample_trajectory t K = Some out /\ equal_arc_resampling t ps K out.
Proof.
  intros Hlen Hpath Hpos HK Hne.
  destruct (path_length_defined t total_length Hlen Hpath) as [ps Hc].
  assert (HL : polyline_length ps = total_length).
  { rewrite (path_length_coords t ps Hc) in Hpath. congruence. }
  rewrite <- HL in Hpos.
  destruct (resample_interior t ps Hc K Hlen Hpos HK Hne)
    as (first & final & pts & Hfirst & Hfinal & Hres & Hl & Hpts).
  exists (first :: pts ++ [final]), ps.
  split; [assumption|]. split; [assumption|]. split; [assumption|].
  assert (Hlo : length (first :: pts ++ [final]) = S (S (length pts))).
  { simpl. rewrite length_app. simpl. lia. }
  unfold equal_arc_resampling. rewrite Hlo. repeat split.
  - lia.
  - rewrite Hfirst. reflexivity.
  - rewrite Hfinal. replace (S (S (length pts)) - 1)%nat with (S (length pts)) by lia.
    simpl. rewrite nth_error_app2 by lia. rewrite Nat.sub_diag. reflexivity.
  - intros i Hi. destruct (Hpts (Z.to_nat i - 1)%nat) as (c & Hn & Ha); [lia|].
    exists c. split.
    + replace (Z.to_nat i) with (S (Z.to_nat i - 1)) by lia. simpl.
      rewrite nth_error_app1 by lia. assumption.
    + rewrite <- Ha. f_equal. f_equal. rewrite INR_IZR_INZ. f_equal. lia.
Qed.

Lemma uneven_path_length : path_length uneven = Some 4.
Proof.
  rewrite (path_length_coords uneven uneven_coords eq_refl), uneven_length. reflexivity.
Qed.

Lemma resample_equal_arc_length_witness :
  exists out ps,
    coords uneven = Some ps /\ polyline_length ps = 4 /\
    resample_trajectory uneven 5 = Some out /\ equal_arc_resampling uneven ps 5 out.
Proof.
  apply (resample_equal_arc_length uneven 5 4).
  - simpl. lia.
  - exact uneven_path_length.
  - lra.
  - lia.
  - simpl. lia.
Defined.

(** C1, as stated, fails when the target count is the number of points: the
    input comes back as it is, and its middle point is at arc length 1, not
    at half of the length 4. *)
Lemma resample_equal_count_counterexample :
  (2 <= length uneven)%nat /\
  path_length uneven = Some 4 /\
  0 < 4 /\
  (2 <= 3)%Z /\
  ~ exists out ps,
      coords uneven = Some ps /\ polyline_length ps = 4 /\
      resample_trajectory uneven 3 = Some out /\ equal_arc_resampling uneven ps 3 out.
Proof.
  split; [simpl; lia|]. split; [exact uneven_path_length|].
  split; [lra|]. split; [lia|].
  intros (out & ps & Hc & _ & Hres & _ & _ & _ & Hint).
  assert (Hps : ps = uneven_coords).
  { change (coords uneven) with (Some uneven_coords) in Hc. injection Hc as <-. reflexivity. }
  subst ps.
  assert (Hout : resample_trajectory uneven 3 = Some uneven) by reflexivity.
  rewrite Hout in Hres. injection Hres as <-.
  destruct (Hint 1%Z) as (c & Hn & Ha); [lia|].
  simpl in Hn. injection Hn as Hx Hy.
  rewrite uneven_length in Ha. unfold uneven_coords in Ha.
  rewrite arc_point_cons, dist_horizontal in Ha.
  rewrite Rabs_right in Ha by lra.
  destruct (Rle_dec (1 * (4 / IZR (3 - 1))) (1 - 0)) as [Hle|_].
  { simpl in Hle. lra. }
  rewrite arc_point_cons, dist_horizontal in Ha.
  rewrite Rabs_right in Ha by lra.
  destruct (Rle_dec (1 * (4 / IZR (3 - 1)) - (1 - 0)) (4 - 1)) as [_|Hn]; [|simpl in Hn; lra].
  destruct (Rlt_dec 0 (4 - 1)) as [_|Hn]; [|lra].
  injection Ha as Ha. rewrite <- Ha in Hx. simpl in Hx. lra.
Qed.

(** *** The normalizer *)

Lemma fold_Rmin_le l : forall a, fold_left Rmin l a <= a /\ forall x, In x l -> fold_left Rmin l a <= x.
Proof.
  induction l as [|y l IH]; intros a; simpl.
  - split; [lra | intros x []].
  - destruct (IH (Rmin a y)) as [H1 H2].
    pose proof (Rmin_l a y). pose proof (Rmin_r a y).
    split; [lra|]. intros x [<-|Hx]; [lra | auto].
Qed.

Lemma fold_Rmin_in l : forall a, fold_left Rmin l a = a \/ In (fold_left Rmin l a) l.
Proof.
  induction l as [|y l IH]; intros a; simpl.
  - left. reflexivity.
  - destruct (IH (Rmin a y)) as [H|H]; [|right; right; assumption].
    rewrite H. unfold Rmin. destruct (Rle_dec a y); [left | right; left]; reflexivity.
Qed.

Lemma fold_Rmax_ge l : forall a, a <= fold_left Rmax l a /\ forall x, In x l -> x <= fold_left Rmax l a.
Proof.
  induction l as [|y l IH]; intros a; simpl.
  - split; [lra | intros x []].
  - destruct (IH (Rmax a y)) as [H1 H2].
    pose proof (Rmax_l a y). pose proof (Rmax_r a y).
    split; [lra|]. intros x [<-|Hx]; [lra | auto].
Qed.

Lemma fold_Rmax_in l : forall a, fold_left Rmax l a = a \/ In (fold_left Rmax l a) l.
Proof.
  induction l as [|y l IH]; intros a; simpl.
  - left. reflexivity.
  - destruct (IH (Rmax a y)) as [H|H]; [|right; right; assumption].
    rewrite H. unfold Rmax. destruct (Rle_dec a y); [right; left | left]; reflexivity.
Qed.

Lemma py_min_le xs x : In x xs -> py_min xs <= x.
Proof.
  destruct xs as [|a l]; [intros []|]. unfold py_min. simpl.
  destruct (fold_Rmin_le l a) as [H1 H2]. intros [<-|Hx]; auto.
Qed.

Lemma py_min_in xs : xs <> [] -> In (py_min xs) xs.
Proof.
  destruct xs as [|a l]; [congruence|]. intros _. unfold py_min. simpl.
  destruct (fold_Rmin_in l a) as [->|H]; auto.
Qed.

Lemma py_max_ge xs x : In x xs -> x <= py_max xs.
Proof.
  destruct xs as [|a l]; [intros []|]. unfold py_max. simpl.
  destruct (fold_Rmax_ge l a) as [H1 H2]. intros [<-|Hx]; auto.
Qed.

Lemma py_max_in xs : xs <> [] -> In (py_max xs) xs.
Proof.
  destruct xs as [|a l]; [congruence|]. intros _. unfold py_max. simpl.
  destruct (fold_Rmax_in l a) as [->|H]; auto.
Qed.

Lemma axis_scaling vs :
  vs <> [] ->
  let lo := py_min vs in
  let hi := py_max vs in
  let w := if Rgt_dec hi lo then hi - lo else 1 in
  is_minimum lo vs /\
  (spread vs -> unit_extent (map (fun v => (v - lo) / w) vs)) /\
  (~ spread vs -> w = 1).
Proof.
  intros Hne lo hi w.
  pose proof (py_min_in vs Hne) as Hlo. pose proof (py_max_in vs Hne) as Hhi.
  fold lo in Hlo. fold hi in Hhi.
  assert (Hmin : forall v, In v vs -> lo <= v) by (intros v Hv; apply py_min_le; assumption).
  assert (Hmax : forall v, In v vs -> v <= hi) by (intros v Hv; apply py_max_ge; assumption).
  split; [split; assumption|]. split.
  - intros (a & b & Ha & Hb & Hab).
    assert (Hlt : lo < hi).
    { pose proof (Hmin a Ha). pose proof (Hmin b Hb).
      pose proof (Hmax a Ha). pose proof (Hmax b Hb).
      destruct (Rlt_dec lo hi); [assumption|]. exfalso. apply Hab. lra. }
    assert (Hw : w = hi - lo).
    { unfold w. destruct (Rgt_dec hi lo); [reflexivity | lra]. }
    rewrite Hw. split; [|split].
    + intros v Hv. apply in_map_iff in Hv as (u & <- & Hu).
      pose proof (Hmin u Hu). pose proof (Hmax u Hu). split.
      * apply Rmult_le_pos; [lra|]. left. apply Rinv_0_lt_compat. lra.
      * apply Rmult_le_reg_r with (hi - lo); [lra|]. unfold Rdiv.
        rewrite Rmult_assoc, Rinv_l by lra. lra.
    + apply in_map_iff. exists lo. split; [|assumption]. unfold Rdiv. ring.
    + apply in_map_iff. exists hi. split; [|assumption]. field. lra.
  - intros Hflat. unfold w. destruct (Rgt_dec hi lo) as [Hgt|]; [|reflexivity].
    exfalso. apply Hflat. exists lo, hi. repeat split; try assumption. lra.
Qed.

Lemma convert_length t : (length (convert t) <= length t)%nat.
Proof.
  induction t as [|p t IH]; simpl; [lia|]. destruct (to_xy p); simpl; lia.
Qed.

(** C2: on an axis where the coordinates are not all the same, the
    normalized trajectory spans exactly the interval from 0 to 1; on an axis
    where they are, the divisor is 1 and every coordinate becomes its
    difference to the minimum; a trajectory of fewer than 2 points is
    returned as it is. *)
Theorem normalize_bounding_box (t : trajectory) :
  ((length t < 2)%nat -> normalize_trajectory t = t) /\
  ((2 <= length (convert t))%nat ->
   exists out min_x min_y,
     normalize_trajectory t = map as_point out /\
     is_minimum min_x (map fst (convert t)) /\
     is_minimum min_y (map snd (convert t)) /\
     (spread (map fst (convert t)) -> unit_extent (map fst out)) /\
     (spread (map snd (convert t)) -> unit_extent (map snd out)) /\
     (~ spread (map fst (convert t)) ->
        map fst out = map (fun c => fst c - min_x) (convert t)) /\
     (~ spread (map snd (convert t)) ->
        map snd out = map (fun c => snd c - min_y) (convert t))).
Proof.
  split.
  - intros H. unfold normalize_trajectory.
    replace (length t <? 2)%nat with true by (symmetry; apply Nat.ltb_lt; assumption).
    reflexivity.
  - intros H. pose proof (convert_length t) as Hl.
    unfold normalize_trajectory.
    replace (length t <? 2)%nat with false by (symmetry; apply Nat.ltb_ge; lia).
    replace (length (convert t) <? 2)%nat with false by (symmetry; apply Nat.ltb_ge; lia).
    set (ps := convert t) in *.
    assert (Hx : map fst ps <> []) by (destruct ps; [simpl in H; lia | discriminate]).
    assert (Hy : map snd ps <> []) by (destruct ps; [simpl in H; lia | discriminate]).
    destruct (axis_scaling (map fst ps) Hx) as (Hminx & Hsx & Hfx).
    destruct (axis_scaling (map snd ps) Hy) as (Hminy & Hsy & Hfy).
    cbv zeta.
    set (min_x := py_min (map fst ps)) in *. set (min_y := py_min (map snd ps)) in *.
    set (width := if Rgt_dec (py_max (map fst ps)) min_x
                  then py_max (map fst ps) - min_x else 1) in *.
    set (height := if Rgt_dec (py_max (map snd ps)) min_y
                   then py_max (map snd ps) - min_y else 1) in *.
    exists (map (fun c => ((fst c - min_x) / width, (snd c - min_y) / height)) ps), min_x, min_y.
    split; [rewrite map_map; reflexivity|].
    split; [assumption|]. split; [assumption|].
    rewrite !map_map. simpl. rewrite map_map in Hsx, Hsy.
    split; [assumption|]. split; [assumption|]. split.
    + intros Hf. apply map_ext. intros c. rewrite (Hfx Hf). field.
    + intros Hf. apply map_ext. intros c. rewrite (Hfy Hf). field.
Qed.

Lemma normalize_bounding_box_witness :
  normalize_trajectory [PList [3; 4]] = [PList [3; 4]] /\
  exists out min_y,
    normalize_trajectory mixed = map as_point out /\
    unit_extent (map fst out) /\
    map snd out = map (fun c => snd c - min_y) (convert mixed).
Proof.
  split.
  - apply (proj1 (normalize_bounding_box [PList [3; 4]])). simpl. lia.
  - assert (H2 : (2 <= length (convert mixed))%nat) by (simpl; lia).
    assert (Hx : spread (map fst (convert mixed))).
    { exists 2, 6. simpl. repeat split; auto. lra. }
    assert (Hy : ~ spread (map snd (convert mixed))).
    { intros (a & b & Ha & Hb & Hab). simpl in Ha, Hb.
      destruct Ha as [<-|[<-|[]]], Hb as [<-|[<-|[]]]; apply Hab; reflexivity. }
    destruct (proj2 (normalize_bounding_box mixed) H2)
      as (out & min_x & min_y & Hout & _ & _ & Hsx & _ & _ & Hfy).
    exists out, min_y. split; [exact Hout|]. split; [exact (Hsx Hx) | exact (Hfy Hy)].
Defined.

(** *** The similarity *)

Lemma dist_sym p q : dist p q = dist q p.
Proof. unfold dist. f_equal. ring. Qed.

Lemma dist_vertical x a b : dist (x, a) (x, b) = Rabs (b - a).
Proof.
  unfold dist. simpl.
  replace ((x - x) * (x - x) + (b - a) * (b - a)) with (Rsqr (b - a)) by (unfold Rsqr; ring).
  apply sqrt_Rsqr_abs.
Qed.

Lemma skipn_cons_nth {A} (l : list A) : forall a p,
  nth_error l a = Some p -> skipn a l = p :: skipn (S a) l.
Proof.
  induction l as [|x l IH]; intros [|a] p H; simpl in *; try discriminate.
  - injection H as ->. reflexivity.
  - rewrite (IH a p H). destruct l; reflexivity.
Qed.

Lemma sum_distances_coords r1 r2 c1 c2 :
  coords r1 = Some c1 -> coords r2 = Some c2 ->
  (length c1 <= length c2)%nat ->
  forall n a acc, (a + n = length c1)%nat ->
  sum_distances r1 r2 (seq a n) acc =
    Some (acc + total_distance (skipn a c1) (skipn a c2)).
Proof.
  intros H1 H2 Hle. induction n as [|n IH]; intros a acc Han.
  - simpl. rewrite (skipn_all2 c1) by lia. simpl. f_equal. lra.
  - destruct (nth_error_some_lt c1 a) as [p Hp]; [lia|].
    destruct (nth_error_some_lt c2 a) as [q Hq]; [lia|].
    cbn [seq sum_distances].
    destruct (coords_nth _ _ _ _ H1 Hp) as [-> ->].
    destruct (coords_nth _ _ _ _ H2 Hq) as [-> ->]. cbn [bind].
    rewrite IH by lia. rewrite (skipn_cons_nth c1 a p Hp), (skipn_cons_nth c2 a q Hq).
    cbn [total_distance]. rewrite norm2_dist, (dist_sym q p). f_equal. lra.
Qed.

(** Whatever the target count [K >= 2], a trajectory of positive length is
    resampled to [K] points, each with two coordinates. *)
Lemma resample_total t ps K :
  coords t = Some ps ->
  (2 <= length t)%nat ->
  0 < polyline_length ps ->
  (2 <= K)%Z ->
  exists out cs,
    resample_trajectory t K = Some out /\ Z.of_nat (length out) = K /\ coords out = Some cs.
Proof.
  intros Hc Hlen Hpos HK.
  destruct (Z.eq_dec (Z.of_nat (length t)) K) as [E|E].
  - exists t, ps. repeat split; try assumption.
    unfold resample_trajectory.
    replace (length t <=? 1)%nat with false by (symmetry; apply Nat.leb_gt; lia).
    replace (K <=? 1)%Z with false by (symmetry; apply Z.leb_gt; lia).
    rewrite (proj2 (Z.eqb_eq _ _) E). reflexivity.
  - destruct (resample_interior t ps Hc K Hlen Hpos HK E)
      as (first & final & pts & Hfirst & Hfinal & Hres & Hl & Hpts).
    destruct (coords_exists (first :: pts ++ [final])) as [cs Hcs].
    { intros p [<-|Hin].
      - apply (coords_in t ps); [assumption|]. eapply nth_error_In; eassumption.
      - apply in_app_or in Hin as [Hin|[<-|[]]].
        + apply In_nth_error in Hin as [k Hk].
          destruct (Hpts k) as (c & Hn & _).
          { rewrite <- Hl. apply nth_error_Some. congruence. }
          rewrite Hk in Hn. injection Hn as ->. exists (fst c, snd c). reflexivity.
        + apply (coords_in t ps); [assumption|]. eapply nth_error_In; eassumption. }
    exists (first :: pts ++ [final]), cs. repeat split; try assumption.
    simpl. rewrite length_app. simpl. lia.
Qed.

Lemma calculate_similarity_by t1 t2 ps1 ps2 :
  coords t1 = Some ps1 -> coords t2 = Some ps2 ->
  (2 <= length t1)%nat -> (2 <= length t2)%nat ->
  0 < polyline_length ps1 -> 0 < polyline_length ps2 ->
  exists s, calculate_similarity t1 t2 = Some s /\ similarity_by max_distance t1 t2 s.
Proof.
  intros H1 H2 L1 L2 P1 P2.
  assert (HK : (2 <= target_points t1 t2)%Z) by (unfold target_points; lia).
  destruct (resample_total t1 ps1 _ H1 L1 P1 HK) as (r1 & c1 & R1 & N1 & C1).
  destruct (resample_total t2 ps2 _ H2 L2 P2 HK) as (r2 & c2 & R2 & N2 & C2).
  pose proof (coords_length _ _ C1) as E1. pose proof (coords_length _ _ C2) as E2.
  unfold calculate_similarity.
  destruct t1 as [|p1 t1]; [simpl in L1; lia|].
  destruct t2 as [|p2 t2]; [simpl in L2; lia|].
  cbn [is_empty orb]. fold (target_points (p1 :: t1) (p2 :: t2)).
  rewrite R1, R2. cbn [bind].
  rewrite (sum_distances_coords r1 r2 c1 c2 C1 C2) by lia. cbn [bind skipn].
  eexists. split; [reflexivity|].
  exists r1, r2, c1, c2. repeat split; try assumption.
  unfold mean_distance. rewrite E1. do 3 f_equal. lra.
Qed.

Lemma sqrt2_gt : max_distance < sqrt 2.
Proof.
  unfold max_distance.
  apply Rsqr_incrst_0; [|lra|apply sqrt_pos].
  rewrite Rsqr_sqrt by lra. unfold Rsqr. lra.
Qed.

Lemma normalize_diagonal : normalize_trajectory diagonal = diagonal.
Proof.
  unfold normalize_trajectory, diagonal. simpl.
  unfold py_min, py_max. simpl.
  rewrite Rmin_left, Rmax_right by lra.
  destruct (Rgt_dec 1 0) as [_|H]; [|lra].
  repeat f_equal; field.
Qed.

Lemma normalize_level : normalize_trajectory level = level.
Proof.
  unfold normalize_trajectory, level. simpl.
  unfold py_min, py_max. simpl.
  rewrite !Rmin_left, !Rmax_right by lra.
  destruct (Rgt_dec 1 0) as [_|H]; [|lra].
  destruct (Rgt_dec 0 0) as [H|_]; [lra|].
  repeat f_equal; field.
Qed.

Lemma norm2_value a b c : 0 <= c -> a * a + b * b = c * c -> norm2 (a, b) = c.
Proof.
  intros Hc H. unfold norm2. simpl. rewrite H. apply sqrt_square. assumption.
Qed.

Lemma similarity_diagonal_level :
  calculate_similarity diagonal level = Some (1 - 1 / 2 / max_distance).
Proof.
  assert (E : calculate_similarity diagonal level =
              Some (Rmax 0 (1 - (0 + norm2 (0 - 0, 0 - 0) + norm2 (1 - 1, 1 - 0)) / INR 2
                                 / max_distance))) by reflexivity.
  rewrite E. f_equal.
  rewrite (norm2_value (0 - 0) (0 - 0) 0), (norm2_value (1 - 1) (1 - 0) 1) by lra.
  replace (INR 2) with 2 by (simpl; lra).
  unfold max_distance. rewrite Rmax_right; lra.
Qed.

Lemma similarity_sqrt2_counterexample :
  normalize_trajectory diagonal = diagonal /\
  normalize_trajectory level = level /\
  ~ exists s, calculate_similarity diagonal level = Some s /\
              similarity_by (sqrt 2) diagonal level s.
Proof.
  split; [apply normalize_diagonal|]. split; [apply normalize_level|].
  intros (s & Hs & r1 & r2 & c1 & c2 & R1 & R2 & _ & _ & C1 & C2 & Es).
  rewrite similarity_diagonal_level in Hs. injection Hs as <-.
  assert (Hr : forall t, length t = 2%nat -> resample_trajectory t 2 = Some t).
  { intros t Ht. unfold resample_trajectory. rewrite Ht. reflexivity. }
  change (target_points diagonal level) with 2%Z in R1, R2.
  rewrite Hr in R1, R2 by reflexivity.
  injection R1 as <-. injection R2 as <-.
  simpl in C1, C2. injection C1 as <-. injection C2 as <-.
  unfold mean_distance in Es. simpl in Es.
  rewrite dist_horizontal, dist_vertical in Es.
  replace (Rabs (0 - 0)) with 0 in Es by (rewrite Rabs_right; lra).
  replace (Rabs (0 - 1)) with 1 in Es by (rewrite Rabs_left; lra).
  pose proof sqrt2_gt as Hgt. unfold max_distance in *.
  assert (Hpos : 0 < (0 + (1 + 0)) / (1 + 1) / sqrt 2 < 1).
  { split.
    - apply Rdiv_lt_0_compat; lra.
    - apply Rmult_lt_reg_r with (sqrt 2); [lra|].
      unfold Rdiv at 1. rewrite Rmult_assoc, Rinv_l by lra. lra. }
  rewrite Rmax_right in Es by lra.
  assert (Heq : 1 / 2 / 1.414 = (0 + (1 + 0)) / (1 + 1) / sqrt 2) by lra.
  assert (Hinv : / sqrt 2 = / 1.414) by (unfold Rdiv in Heq; lra).
  assert (H2 : sqrt 2 = 1.414).
  { rewrite <- (Rinv_inv (sqrt 2)), Hinv, Rinv_inv. reflexivity. }
  lra.
Qed.

Lemma total_distance_nonneg c1 : forall c2, 0 <= total_distance c1 c2.
Proof.
  induction c1 as [|p c1 IH]; intros [|q c2]; simpl; try lra.
  pose proof (dist_nonneg p q). specialize (IH c2). lra.
Qed.

(** C3 (as amended): for two trajectories of at least 2 points and positive
    path length, the similarity is obtained by resampling both to
    [min(50, max(len, len))] points, taking the mean distance of
    corresponding points and returning [max(0, 1 - mean / 1.414)]: the
    divisor is the constant 1.414, not the square root of 2.  The result
    lies between 0 and 1. *)
Theorem similarity_formula (t1 t2 : trajectory) (length1 length2 : R) :
  (2 <= length t1)%nat -> (2 <= length t2)%nat ->
  path_length t1 = Some length1 -> path_length t2 = Some length2 ->
  0 < length1 -> 0 < length2 ->
  exists s, calculate_similarity t1 t2 = Some s /\
            similarity_by 1.414 t1 t2 s /\ 0 <= s <= 1.
Proof.
  intros L1 L2 E1 E2 P1 P2.
  destruct (path_length_defined t1 length1 L1 E1) as [ps1 H1].
  destruct (path_length_defined t2 length2 L2 E2) as [ps2 H2].
  rewrite (path_length_coords t1 ps1 H1) in E1. injection E1 as E1.
  rewrite (path_length_coords t2 ps2 H2) in E2. injection E2 as E2.
  rewrite <- E1 in P1. rewrite <- E2 in P2.
  destruct (calculate_similarity_by t1 t2 ps1 ps2 H1 H2 L1 L2 P1 P2) as (s & Hs & Hby).
  exists s. split; [assumption|]. split; [exact Hby|].
  destruct Hby as (r1 & r2 & c1 & c2 & _ & _ & N1 & _ & C1 & _ & ->).
  split; [apply Rmax_l|]. apply Rmax_lub; [lra|].
  assert (0 <= mean_distance c1 c2 / max_distance); [|lra].
  unfold mean_distance, max_distance.
  pose proof (total_distance_nonneg c1 c2) as Ht.
  assert (Hn : 0 < INR (length c1)).
  { apply lt_0_INR. rewrite (coords_length _ _ C1).
    unfold target_points in N1. lia. }
  apply Rmult_le_pos; [|lra]. apply Rmult_le_pos; [assumption|].
  left. apply Rinv_0_lt_compat. assumption.
Qed.

Lemma level_path_length : path_length level = Some 1.
Proof.
  rewrite (path_length_coords level [(0, 0); (1, 0)] eq_refl). f_equal.
  simpl. rewrite dist_horizontal, Rabs_right by lra. lra.
Qed.

Lemma similarity_formula_witness :
  exists s, calculate_similarity uneven level = Some s /\
            similarity_by 1.414 uneven level s /\ 0 <= s <= 1.
Proof.
  apply (similarity_formula uneven level 4 1).
  - simpl. lia.
  - simpl. lia.
  - exact uneven_path_length.
  - exact level_path_length.
  - lra.
  - lra.
Defined.

(** *** The matcher *)



Lemma normalize_short t : (length t < 2)%nat -> normalize_trajectory t = t.
Proof.
  intros H. unfold normalize_trajectory.
  replace (length t <? 2)%nat with true by (symmetry; apply Nat.ltb_lt; assumption).
  reflexivity.
Qed.
















Close Scope R_scope.

(** *** The pipeline *)

(** C7: when tracking is disabled, the detector is not loaded or the frame
    is absent, the pipeline returns no detection and its state, with the
    frame counter, the detection counter, the latency window and the current
    detection, is unchanged. *)
Theorem process_frame_disabled (cm : camera_manager) (ext : externals) (fr : option frame)
    (confidence_threshold : Q) :
  tracking_enabled cm = false \/ model cm = None \/ fr = None ->
  process_frame cm ext fr confidence_threshold = (cm, Returned None).
Proof.
  intros H. unfold process_frame.
  destruct (tracking_enabled cm); [|reflexivity].
  destruct (model cm); [|reflexivity].
  destruct fr; [|reflexivity].
  destruct H as [H|[H|H]]; discriminate.
Qed.

Lemma process_frame_disabled_witness :
  process_frame (camera_init (Some failing_detector) false) still_world (Some blank) (3 # 4) =
    (camera_init (Some failing_detector) false, Returned None).
Proof.
  apply (process_frame_disabled (camera_init (Some failing_detector) false) still_world
           (Some blank) (3 # 4)).
  left. reflexivity.
Defined.

(** C6: when the detector raises, the pipeline returns no detection: the
    call returns and does not raise.  Only the frame counter has moved. *)
Theorem detector_failure_contained (cm : camera_manager) (ext : externals) (f resized : frame)
    (infer : detector) (confidence_threshold : Q) :
  tracking_enabled cm = true ->
  model cm = Some infer ->
  cv2_resize ext f (detection_frame_size cm) = Some resized ->
  infer resized confidence_threshold = InferRaises ->
  process_frame cm ext (Some f) confidence_threshold =
    (set_frame_count cm (S (frame_count cm)), Returned None).
Proof.
  intros Ht Hm Hr Hi. unfold process_frame. rewrite Ht, Hm, Hr, Hi. reflexivity.
Qed.

Lemma detector_failure_contained_witness :
  process_frame (camera_init (Some failing_detector) true) still_world (Some blank) (3 # 4) =
    (set_frame_count (camera_init (Some failing_detector) true) 1, Returned None).
Proof.
  apply (detector_failure_contained (camera_init (Some failing_detector) true) still_world blank
           {| frame_height := 320; frame_width := 320; frame_pixels := [] |}
           failing_detector (3 # 4)); reflexivity.
Defined.

(** *** The frame-skip gate *)

Lemma half_remainder (p : positive) :
  (inject_Z (Z.pos p) - (1 # 2) * inject_Z (Z.pos (p * 2)) == 0)%Q.
Proof.
  rewrite Pos2Z.inj_mul, inject_Z_mult. change (inject_Z 2) with (2 # 1). ring.
Qed.

Lemma py_mod_half (p : positive) :
  py_mod (Z.pos p) default_divisor =
  Some (inject_Z (Z.pos p) - (1 # 2) * inject_Z (Z.pos (p * 2)))%Q.
Proof.
  unfold py_mod, default_divisor. simpl. rewrite Z.div_1_r. reflexivity.
Qed.

(** What a turn of the handler does to the connection state: nothing, or it
    sets the divisor to 0.2, or it counts a frame. *)
Lemma frame_stream_conn sv c ext i c' :
  turn_conn (frame_stream_endpoint sv c ext i) = Some c' ->
  c' = c \/
  c' = {| frame_skip_counter := frame_skip_counter c;
          process_every_nth_frame := forced_divisor |} \/
  c' = bump c.
Proof.
  intros Hstep. destruct i as [| |m]; unfold frame_stream_endpoint in Hstep.
  - injection Hstep as <-. auto.
  - injection Hstep as <-. auto.
  - destruct (eqs (msg_type m) "ping"); [injection Hstep as <-; auto|].
    destruct (eqs (msg_type m) "refresh_detection").
    { cbn [turn_conn] in Hstep. injection Hstep as <-.
      destruct (get_default (msg_force_process m) false); auto. }
    destruct (eqs (msg_type m) "update_confidence"); [injection Hstep as <-; auto|].
    destruct (eqs (msg_type m) "frame"); [|injection Hstep as <-; auto].
    destruct (should_process (frame_skip_counter (bump c)) (process_every_nth_frame (bump c))).
    + match type of Hstep with
      | context [match ?x with pair _ _ => _ end] => destruct x
      end.
      cbn [turn_conn] in Hstep. injection Hstep as <-. auto.
    + cbn [turn_conn] in Hstep. injection Hstep as <-. auto.
Qed.

Lemma reachable_divisor c :
  reachable c ->
  process_every_nth_frame c = default_divisor \/ process_every_nth_frame c = forced_divisor.
Proof.
  induction 1 as [|sv c ext i c' Hc IH Hstep]; [left; reflexivity|].
  destruct (frame_stream_conn sv c ext i c' Hstep) as [->|[->| ->]];
    [assumption | right; reflexivity | assumption].
Qed.

Lemma reachable_counter c : reachable c -> (0 <= frame_skip_counter c)%Z.
Proof.
  induction 1 as [|sv c ext i c' Hc IH Hstep]; [simpl; lia|].
  destruct (frame_stream_conn sv c ext i c' Hstep) as [->|[->| ->]]; simpl; lia.
Qed.

(** C10: with the initial divisor 0.5, every positive value of the frame
    counter has remainder 0, so [should_process] is true: as long as the
    connection keeps that divisor, the gate is open on every frame. *)
Theorem default_divisor_never_skips (p : positive) (c : frame_conn) :
  (exists r, py_mod (Z.pos p) (process_every_nth_frame frame_conn_init) = Some r /\ (r == 0)%Q) /\
  should_process (Z.pos p) (process_every_nth_frame frame_conn_init) = Some true /\
  (reachable c -> process_every_nth_frame c = default_divisor ->
   should_process (frame_skip_counter (bump c)) (process_every_nth_frame (bump c)) = Some true).
Proof.
  assert (Hgate : forall q, should_process (Z.pos q) default_divisor = Some true).
  { intros q. unfold should_process. rewrite py_mod_half. f_equal.
    apply Qeq_bool_iff. apply half_remainder. }
  change (process_every_nth_frame frame_conn_init) with default_divisor.
  split; [|split].
  - eexists. split; [apply py_mod_half | apply half_remainder].
  - apply Hgate.
  - intros Hreach Hdiv. pose proof (reachable_counter c Hreach) as Hpos.
    cbn [bump frame_skip_counter process_every_nth_frame]. rewrite Hdiv.
    destruct (frame_skip_counter c + 1)%Z as [|q|q] eqn:E; try lia. apply Hgate.
Qed.

Lemma default_divisor_never_skips_witness :
  should_process (frame_skip_counter (bump frame_conn_init))
                 (process_every_nth_frame (bump frame_conn_init)) = Some true.
Proof.
  apply (default_divisor_never_skips 1 frame_conn_init).
  - apply reach_init.
  - reflexivity.
Defined.

(** *** The handlers *)

Lemma eqs_other k a b : eqs k a = true -> a <> b -> eqs k b = false.
Proof.
  destruct k as [s|]; simpl; [|discriminate]. intros Ha Hab.
  apply String.eqb_eq in Ha as ->. apply String.eqb_neq. assumption.
Qed.

Lemma should_process_defined n d :
  d = default_divisor \/ d = forced_divisor -> exists go, should_process n d = Some go.
Proof.
  intros [->| ->]; unfold should_process, py_mod; simpl; eauto.
Qed.

(** C5: in every state that the frame-streaming connection reaches, a
    frame message is answered by [frame_received] and then by a detection
    message, and by nothing else.  The detection is null, and the pipeline
    state untouched, when the payload does not decode, when it is empty or
    absent, when the skip gate is closed, and when tracking is off; in the
    case that is left the pipeline runs on the decoded image, the detection
    sent is the one it returned, null when it returned none or raised, and
    the pipeline state is the one it left. *)
Theorem frame_always_answered (sv : server) (c : frame_conn) (ext : externals) (m : message) :
  reachable c ->
  eqs (msg_type m) "frame" = true ->
  exists d cm,
    frame_stream_endpoint sv c ext (Object m) =
      {| turn_server := with_camera sv cm; turn_conn := Some (bump c);
         turn_sent := [FrameReceived; DetectionReply d (now ext) None] |} /\
    (undecodable ext m -> d = None /\ cm = camera sv) /\
    (should_process (frame_skip_counter (bump c)) (process_every_nth_frame (bump c)) = Some false ->
     d = None /\ cm = camera sv) /\
    (truthy (frame_field m) = false -> d = None /\ cm = camera sv) /\
    (tracking_enabled (camera sv) = false -> d = None /\ cm = camera sv) /\
    (forall s f,
       frame_field m = Some (PText s) -> s <> EmptyString ->
       b64_imdecode ext (base64_part s) = Decoded f ->
       tracking_enabled (camera sv) = true ->
       should_process (frame_skip_counter (bump c)) (process_every_nth_frame (bump c)) = Some true ->
       exists o,
         process_frame (camera sv) ext (Some f) (current_hand_detection_confidence sv) = (cm, o) /\
         d = match o with Returned r => r | Raised => None end).
Proof.
  intros Hreach Hkind.
  assert (Hping : eqs (msg_type m) "ping" = false)
    by (apply (eqs_other _ _ _ Hkind); discriminate).
  assert (Hrefresh : eqs (msg_type m) "refresh_detection" = false)
    by (apply (eqs_other _ _ _ Hkind); discriminate).
  assert (Hupdate : eqs (msg_type m) "update_confidence" = false)
    by (apply (eqs_other _ _ _ Hkind); discriminate).
  destruct (should_process_defined (frame_skip_counter (bump c)) (process_every_nth_frame (bump c)))
    as [go Hgo].
  { apply (reachable_divisor c Hreach). }
  unfold frame_stream_endpoint. rewrite Hping, Hrefresh, Hupdate, Hkind, Hgo.
  unfold undecodable.
  assert (Hidle : forall P : option detection -> camera_manager -> Prop,
            P None (camera sv) ->
            exists d cm,
              {| turn_server := with_camera sv (camera sv); turn_conn := Some (bump c);
                 turn_sent := [FrameReceived; DetectionReply None (now ext) None] |} =
              {| turn_server := with_camera sv cm; turn_conn := Some (bump c);
                 turn_sent := [FrameReceived; DetectionReply d (now ext) None] |} /\ P d cm).
  { intros P HP. exists None, (camera sv). split; [reflexivity | exact HP]. }
  destruct (frame_field m) as [data|] eqn:Efield.
  - destruct (truthy (Some data) && tracking_enabled (camera sv) && go) eqn:Egate.
    + apply andb_true_iff in Egate as [Egate Ego]. apply andb_true_iff in Egate as [Etruthy Etrack].
      subst go.
      destruct (decode_and_detect sv ext data) as [cm d] eqn:Edec.
      exists d, cm. split; [reflexivity|].
      unfold decode_and_detect in Edec.
      split; [|split; [|split; [|split]]].
      * intros Hund. destruct data as [s|b].
        -- destruct (b64_imdecode ext (base64_part s)); try contradiction;
             injection Edec as <- <-; split; reflexivity.
        -- injection Edec as <- <-. split; reflexivity.
      * intros Hskip. discriminate.
      * intros Hfalsy. rewrite Hfalsy in Etruthy. discriminate.
      * intros Hoff. rewrite Hoff in Etrack. discriminate.
      * intros s f [= ->] _ Hdec _ _. rewrite Hdec in Edec.
        destruct (process_frame (camera sv) ext (Some f) (current_hand_detection_confidence sv))
          as [cm' [r|]]; injection Edec as <- <-; eexists; split; reflexivity.
    + apply (Hidle (fun d cm => _)).
      split; [intros _; split; reflexivity|].
      split; [intros _; split; reflexivity|].
      split; [intros _; split; reflexivity|].
      split; [intros _; split; reflexivity|].
      intros s f [= ->] Hs Hdec Htrack [= ->]. exfalso.
      rewrite Htrack in Egate. destruct s; [congruence | discriminate].
  - apply (Hidle (fun d cm => _)).
    split; [intros _; split; reflexivity|].
    split; [intros _; split; reflexivity|].
    split; [intros _; split; reflexivity|].
    split; [intros _; split; reflexivity|].
    intros s f Hf. discriminate.
Qed.

Lemma hand_detected :
  process_frame (camera_init (Some one_hand) true) still_world (Some blank) (3 # 4) =
    (record_detection (set_frame_count (camera_init (Some one_hand) true) 1) still_world
                      hand_detection,
     Returned (Some hand_detection)).
Proof. reflexivity. Qed.

Lemma reachable_forced : reachable forced_conn.
Proof.
  apply (reach_step (server_init None) frame_conn_init still_world (Object forced_refresh)).
  - apply reach_init.
  - reflexivity.
Qed.

Lemma frame_always_answered_witness :
  (* a payload that decodes, the gate open: the detection of the pipeline *)
  frame_stream_endpoint (server_init (Some one_hand)) frame_conn_init still_world
                        (Object (frame_message "abc")) =
    {| turn_server :=
         with_camera (server_init (Some one_hand))
           (record_detection (set_frame_count (camera_init (Some one_hand) true) 1) still_world
                             hand_detection);
       turn_conn := Some (bump frame_conn_init);
       turn_sent := [FrameReceived; DetectionReply (Some hand_detection) (now still_world) None] |} /\
  (* a payload that does not decode: null *)
  frame_stream_endpoint (server_init (Some one_hand)) frame_conn_init broken_world
                        (Object (frame_message "abc")) =
    {| turn_server := with_camera (server_init (Some one_hand))
                                  (camera (server_init (Some one_hand)));
       turn_conn := Some (bump frame_conn_init);
       turn_sent := [FrameReceived; DetectionReply None (now broken_world) None] |} /\
  (* the gate closed: null *)
  frame_stream_endpoint (server_init (Some one_hand)) forced_conn still_world
                        (Object (frame_message "abc")) =
    {| turn_server := with_camera (server_init (Some one_hand))
                                  (camera (server_init (Some one_hand)));
       turn_conn := Some (bump forced_conn);
       turn_sent := [FrameReceived; DetectionReply None (now still_world) None] |}.
Proof.
  split; [|split].
  - destruct (frame_always_answered (server_init (Some one_hand)) frame_conn_init still_world
                (frame_message "abc")) as (d & cm & E & _ & _ & _ & _ & Hrun).
    + apply reach_init.
    + reflexivity.
    + assert (Hne : "abc"%string <> EmptyString) by discriminate.
      destruct (Hrun "abc"%string blank eq_refl Hne eq_refl eq_refl eq_refl) as (o & Ho & Hd).
      change (process_frame (camera_init (Some one_hand) true) still_world (Some blank) (3 # 4)
              = (cm, o)) in Ho.
      rewrite hand_detected in Ho. injection Ho as <- <-. rewrite E, Hd. reflexivity.
  - destruct (frame_always_answered (server_init (Some one_hand)) frame_conn_init broken_world
                (frame_message "abc")) as (d & cm & E & Hund & _).
    + apply reach_init.
    + reflexivity.
    + destruct Hund as [-> ->]; [exact I|]. exact E.
  - destruct (frame_always_answered (server_init (Some one_hand)) forced_conn still_world
                (frame_message "abc")) as (d & cm & E & _ & Hskip & _).
    + exact reachable_forced.
    + reflexivity.
    + destruct Hskip as [-> ->]; [reflexivity|]. exact E.
Defined.

Lemma eqs_unknown kinds k s : unknown_to kinds k -> In s kinds -> eqs k s = false.
Proof.
  intros Hu Hin. destruct k as [k|]; [|reflexivity]. simpl.
  apply String.eqb_neq. intros ->. exact (Hu s eq_refl Hin).
Qed.

(** C8: a message of a kind that the endpoint does not know.  On [/ws] the
    handler answers with an error that names the kind and goes on.  On
    [/ws/frames] the handler goes on too, but it sends nothing. *)
Theorem unknown_kind_replies (sv : server) (c : frame_conn) (ext : externals) (m : message) :
  (unknown_to websocket_kinds (py_or (msg_message_type m) (msg_type m)) ->
   websocket_endpoint sv ext (Object m) =
     {| turn_server := sv; turn_conn := Some tt;
        turn_sent :=
          [StatusReply "error"
             ("Unknown message type: " ++ py_str (py_or (msg_message_type m) (msg_type m)))] |}) /\
  (unknown_to frame_stream_kinds (msg_type m) ->
   frame_stream_endpoint sv c ext (Object m) =
     {| turn_server := sv; turn_conn := Some c; turn_sent := [] |}).
Proof.
  split; intros Hu.
  - unfold websocket_endpoint.
    rewrite !(eqs_unknown websocket_kinds _ _ Hu) by (simpl; tauto). reflexivity.
  - unfold frame_stream_endpoint.
    rewrite !(eqs_unknown frame_stream_kinds _ _ Hu) by (simpl; tauto). reflexivity.
Qed.

Lemma unknown_kind_replies_witness :
  websocket_endpoint (server_init None) still_world (Object (message_of_type "bogus")) =
    {| turn_server := server_init None; turn_conn := Some tt;
       turn_sent := [StatusReply "error" "Unknown message type: bogus"] |} /\
  frame_stream_endpoint (server_init None) frame_conn_init still_world
                    (Object (message_of_type "bogus")) =
    {| turn_server := server_init None; turn_conn := Some frame_conn_init; turn_sent := [] |}.
Proof.
  assert (H1 : unknown_to websocket_kinds (Some "bogus"%string)).
  { intros s' [= <-] Hin. simpl in Hin. intuition discriminate. }
  assert (H2 : unknown_to frame_stream_kinds (Some "bogus"%string)).
  { intros s' [= <-] Hin. simpl in Hin. intuition discriminate. }
  destruct (unknown_kind_replies (server_init None) frame_conn_init still_world
              (message_of_type "bogus")) as [Hws Hfr].
  split; [exact (Hws H1) | exact (Hfr H2)].
Defined.

(** ** Further properties *)

(** *** The trajectory functions *)

Open Scope R_scope.

Lemma polyline_length_nonneg ps : 0 <= polyline_length ps.
Proof.
  pose proof (rest_len_le ps (length ps)) as H. unfold rest_len in H.
  rewrite skipn_all in H. simpl in H. exact H.
Qed.

Lemma resample_defined (t : trajectory) (ps : list (R * R)) (K : Z) :
  coords t = Some ps ->
  exists out cs,
    resample_trajectory t K = Some out /\ coords out = Some cs /\
    (out = t \/ (Z.of_nat (length out) = K /\ 0 < polyline_length ps)) /\
    (polyline_length ps = 0 -> out = t).
Proof.
  intros Hc.
  assert (Hsame : resample_trajectory t K = Some t ->
    exists out cs, resample_trajectory t K = Some out /\ coords out = Some cs /\
      (out = t \/ (Z.of_nat (length out) = K /\ 0 < polyline_length ps)) /\
      (polyline_length ps = 0 -> out = t)).
  { intros E. exists t, ps. repeat split; auto. }
  unfold resample_trajectory in *.
  destruct ((length t <=? 1)%nat || (K <=? 1)%Z) eqn:E1; [apply Hsame; reflexivity|].
  destruct (Z.of_nat (length t) =? K)%Z eqn:E2; [apply Hsame; reflexivity|].
  rewrite (path_length_coords t ps Hc) in *. cbn [bind] in *.
  destruct (Req_dec_T (polyline_length ps) 0) as [E3|E3]; [apply Hsame; reflexivity|].
  clear Hsame.
  apply orb_false_elim in E1 as [E1 E1']. apply Nat.leb_gt in E1. apply Z.leb_gt in E1'.
  apply Z.eqb_neq in E2.
  pose proof (polyline_length_nonneg ps) as Hnn.
  assert (Hpos : 0 < polyline_length ps) by lra.
  destruct (resample_total t ps K Hc) as (out & cs & Hres & Hlen & Hcs); try lia; try assumption.
  unfold resample_trajectory in Hres.
  replace (length t <=? 1)%nat with false in Hres by (symmetry; apply Nat.leb_gt; lia).
  replace (K <=? 1)%Z with false in Hres by (symmetry; apply Z.leb_gt; lia).
  replace (Z.of_nat (length t) =? K)%Z with false in Hres by (symmetry; apply Z.eqb_neq; assumption).
  cbn [orb] in Hres. rewrite (path_length_coords t ps Hc) in Hres. cbn [bind] in Hres.
  destruct (Req_dec_T (polyline_length ps) 0) as [E4|_]; [contradiction|].
  exists out, cs. repeat split; auto. intros E0. lra.
Qed.

(** X1: on a trajectory whose points all have two coordinates, [resample_trajectory]
    never raises, whatever the target count: it returns either its input
    unchanged or exactly [K] points, which again all have two coordinates;
    a trajectory of zero length always comes back unchanged. *)
Theorem resample_never_raises (t : trajectory) (ps : list (R * R)) (K : Z) :
  coords t = Some ps ->
  exists out cs,
    resample_trajectory t K = Some out /\ coords out = Some cs /\
    (out = t \/ (Z.of_nat (length out) = K /\ 0 < polyline_length ps)) /\
    (polyline_length ps = 0 -> out = t).
Proof. exact (resample_defined t ps K). Qed.

Lemma resample_never_raises_witness :
  exists out cs,
    resample_trajectory uneven 5 = Some out /\ coords out = Some cs /\
    (out = uneven \/ (Z.of_nat (length out) = 5%Z /\ 0 < polyline_length uneven_coords)) /\
    (polyline_length uneven_coords = 0 -> out = uneven).
Proof. apply (resample_never_raises uneven uneven_coords 5). reflexivity. Defined.

Lemma convert_as_point ps : convert (map as_point ps) = ps.
Proof.
  induction ps as [|[x y] ps IH]; simpl; [reflexivity|]. rewrite IH. reflexivity.
Qed.

Lemma coords_as_point ps : coords (map as_point ps) = Some ps.
Proof.
  induction ps as [|[x y] ps IH]; simpl; [reflexivity|]. rewrite IH. reflexivity.
Qed.

Lemma normalize_scale t :
  (2 <= length (convert t))%nat ->
  normalize_trajectory t = map as_point (scale_points (convert t)).
Proof.
  intros H. pose proof (convert_length t) as Hl.
  unfold normalize_trajectory.
  replace (length t <? 2)%nat with false by (symmetry; apply Nat.ltb_ge; lia).
  replace (length (convert t) <? 2)%nat with false by (symmetry; apply Nat.ltb_ge; lia).
  unfold scale_points, axis_divisor. rewrite map_map. reflexivity.
Qed.

(** The normalizer's three cases. *)
Lemma normalize_cases t :
  ((length t < 2)%nat /\ normalize_trajectory t = t) \/
  ((length (convert t) < 2)%nat /\ normalize_trajectory t = map as_point (convert t)) \/
  ((2 <= length (convert t))%nat /\
   normalize_trajectory t = map as_point (scale_points (convert t))).
Proof.
  destruct (le_lt_dec 2 (length t)) as [H|H]; [|left; split; [assumption|apply normalize_short; assumption]].
  destruct (le_lt_dec 2 (length (convert t))) as [H2|H2].
  - right. right. split; [assumption|apply normalize_scale; assumption].
  - right. left. split; [assumption|]. unfold normalize_trajectory.
    replace (length t <? 2)%nat with false by (symmetry; apply Nat.ltb_ge; lia).
    replace (length (convert t) <? 2)%nat with true by (symmetry; apply Nat.ltb_lt; lia).
    reflexivity.
Qed.

Lemma scale_points_length ps : length (scale_points ps) = length ps.
Proof. unfold scale_points. apply length_map. Qed.

(** One axis after scaling: the minimum is 0 and the divisor is 1. *)
Lemma axis_rescaled vs :
  vs <> [] ->
  py_min (map (fun v => (v - py_min vs) / axis_divisor vs) vs) = 0 /\
  axis_divisor (map (fun v => (v - py_min vs) / axis_divisor vs) vs) = 1.
Proof.
  intros Hne.
  assert (Hw : (py_max vs > py_min vs /\ axis_divisor vs = py_max vs - py_min vs) \/
               (~ py_max vs > py_min vs /\ axis_divisor vs = 1)).
  { unfold axis_divisor. destruct (Rgt_dec (py_max vs) (py_min vs)); auto. }
  set (w := axis_divisor vs) in *. clearbody w.
  set (vs' := map (fun v => (v - py_min vs) / w) vs).
  assert (Hne' : vs' <> []) by (unfold vs'; destruct vs; [congruence | discriminate]).
  pose proof (py_min_in vs Hne) as Hlo. pose proof (py_max_in vs Hne) as Hhi.
  pose proof (py_min_in vs' Hne') as Hlo'. pose proof (py_max_in vs' Hne') as Hhi'.
  assert (Hmin : forall v, In v vs -> py_min vs <= v) by (intros; apply py_min_le; assumption).
  assert (Hmax : forall v, In v vs -> v <= py_max vs) by (intros; apply py_max_ge; assumption).
  unfold axis_divisor.
  destruct Hw as [[Hgt ->]|[Hle ->]].
  - assert (Hin0 : In 0 vs').
    { apply in_map_iff. exists (py_min vs). split; [|assumption]. unfold Rdiv. ring. }
    assert (Hin1 : In 1 vs').
    { apply in_map_iff. exists (py_max vs). split; [|assumption]. field. lra. }
    assert (Hrange : forall v, In v vs' -> 0 <= v <= 1).
    { intros v Hv. apply in_map_iff in Hv as (u & <- & Hu).
      pose proof (Hmin u Hu). pose proof (Hmax u Hu). split.
      - apply Rmult_le_pos; [lra|]. left. apply Rinv_0_lt_compat. lra.
      - apply Rmult_le_reg_r with (py_max vs - py_min vs); [lra|]. unfold Rdiv.
        rewrite Rmult_assoc, Rinv_l by lra. lra. }
    assert (E0 : py_min vs' = 0).
    { pose proof (py_min_le vs' 0 Hin0). pose proof (Hrange _ Hlo'). lra. }
    assert (E1 : py_max vs' = 1).
    { pose proof (py_max_ge vs' 1 Hin1). pose proof (Hrange _ Hhi'). lra. }
    split; [assumption|]. rewrite E0, E1.
    destruct (Rgt_dec 1 0); lra.
  - assert (Hall : forall v, In v vs' -> v = 0).
    { intros v Hv. apply in_map_iff in Hv as (u & <- & Hu).
      pose proof (Hmin u Hu). pose proof (Hmax u Hu).
      replace u with (py_min vs) by lra. unfold Rdiv. ring. }
    rewrite (Hall _ Hlo'), (Hall _ Hhi'). split; [reflexivity|].
    destruct (Rgt_dec 0 0); lra.
Qed.

Lemma scale_points_idempotent ps :
  ps <> [] -> scale_points (scale_points ps) = scale_points ps.
Proof.
  intros Hne.
  assert (Hx : map fst ps <> []) by (destruct ps; [congruence | discriminate]).
  assert (Hy : map snd ps <> []) by (destruct ps; [congruence | discriminate]).
  destruct (axis_rescaled (map fst ps) Hx) as [Hx0 Hx1].
  destruct (axis_rescaled (map snd ps) Hy) as [Hy0 Hy1].
  unfold scale_points at 1.
  assert (Ex : map fst (scale_points ps) =
               map (fun v => (v - py_min (map fst ps)) / axis_divisor (map fst ps)) (map fst ps)).
  { unfold scale_points. rewrite !map_map. reflexivity. }
  assert (Ey : map snd (scale_points ps) =
               map (fun v => (v - py_min (map snd ps)) / axis_divisor (map snd ps)) (map snd ps)).
  { unfold scale_points. rewrite !map_map. reflexivity. }
  rewrite Ex, Ey, Hx0, Hx1, Hy0, Hy1.
  rewrite <- (map_id (scale_points ps)) at 2. apply map_ext.
  intros [x y]. simpl. f_equal; field.
Qed.

Lemma normalize_twice t :
  normalize_trajectory (normalize_trajectory t) = normalize_trajectory t.
Proof.
  destruct (normalize_cases t) as [[H E]|[[H E]|[H E]]]; rewrite E.
  - exact E.
  - apply normalize_short. rewrite length_map. assumption.
  - rewrite normalize_scale; rewrite convert_as_point.
    + rewrite scale_points_idempotent; [reflexivity|].
      destruct (convert t); [simpl in H; lia | discriminate].
    + rewrite scale_points_length. assumption.
Qed.

(** X2: normalizing a normalized trajectory changes nothing:
    [normalize_trajectory] is idempotent on every trajectory whose elements
    are objects with numeric or absent [x] and [y], arrays of numbers, or
    values that are neither objects nor arrays, that is, on every
    [trajectory] of this file. *)
Theorem normalize_idempotent (t : trajectory) :
  normalize_trajectory (normalize_trajectory t) = normalize_trajectory t.
Proof.
  destruct (normalize_cases t) as [[H E]|[[H E]|[H E]]]; rewrite E.
  - exact E.
  - apply normalize_short. rewrite length_map. assumption.
  - rewrite normalize_scale; rewrite convert_as_point.
    + rewrite scale_points_idempotent; [reflexivity|].
      destruct (convert t); [simpl in H; lia | discriminate].
    + rewrite scale_points_length. assumption.
Qed.

Lemma convert_stretch kx ky ax ay t :
  convert (map (stretch kx ky ax ay) t) =
  map (fun c => (kx * fst c + ax, ky * snd c + ay)) (convert t).
Proof.
  induction t as [|p t IH]; simpl; [reflexivity|].
  destruct p as [x y|[|x [|y rest]]|]; simpl; rewrite ?IH; reflexivity.
Qed.

Lemma fold_Rmin_affine k a l : 0 < k -> forall x,
  fold_left Rmin (map (fun v => k * v + a) l) (k * x + a) = k * fold_left Rmin l x + a.
Proof.
  intros Hk. induction l as [|y l IH]; intros x; simpl; [reflexivity|].
  replace (Rmin (k * x + a) (k * y + a)) with (k * Rmin x y + a); [apply IH|].
  unfold Rmin. destruct (Rle_dec x y), (Rle_dec (k * x + a) (k * y + a)); try reflexivity; nra.
Qed.

Lemma fold_Rmax_affine k a l : 0 < k -> forall x,
  fold_left Rmax (map (fun v => k * v + a) l) (k * x + a) = k * fold_left Rmax l x + a.
Proof.
  intros Hk. induction l as [|y l IH]; intros x; simpl; [reflexivity|].
  replace (Rmax (k * x + a) (k * y + a)) with (k * Rmax x y + a); [apply IH|].
  unfold Rmax. destruct (Rle_dec x y), (Rle_dec (k * x + a) (k * y + a)); try reflexivity; nra.
Qed.

Lemma py_min_affine k a vs : 0 < k -> vs <> [] ->
  py_min (map (fun v => k * v + a) vs) = k * py_min vs + a.
Proof.
  intros Hk Hne. destruct vs as [|x l]; [congruence|]. unfold py_min. simpl.
  apply fold_Rmin_affine. assumption.
Qed.

Lemma py_max_affine k a vs : 0 < k -> vs <> [] ->
  py_max (map (fun v => k * v + a) vs) = k * py_max vs + a.
Proof.
  intros Hk Hne. destruct vs as [|x l]; [congruence|]. unfold py_max. simpl.
  apply fold_Rmax_affine. assumption.
Qed.

(** One axis: the scaled value of a stretched coordinate is the scaled value
    of the coordinate. *)
Lemma axis_affine k a vs v : 0 < k -> In v vs ->
  (k * v + a - py_min (map (fun u => k * u + a) vs)) / axis_divisor (map (fun u => k * u + a) vs)
  = (v - py_min vs) / axis_divisor vs.
Proof.
  intros Hk Hv.
  assert (Hne : vs <> []) by (destruct vs; [destruct Hv | discriminate]).
  unfold axis_divisor. rewrite !py_min_affine, !py_max_affine by assumption.
  pose proof (py_min_le vs v Hv). pose proof (py_max_ge vs v Hv).
  destruct (Rgt_dec (py_max vs) (py_min vs)) as [Hgt|Hle],
           (Rgt_dec (k * py_max vs + a) (k * py_min vs + a)) as [Hgt'|Hle'].
  - field. split; nra.
  - nra.
  - nra.
  - replace v with (py_min vs) by lra. unfold Rdiv. ring.
Qed.

Lemma scale_points_stretch kx ky ax ay ps : 0 < kx -> 0 < ky ->
  scale_points (map (fun c => (kx * fst c + ax, ky * snd c + ay)) ps) = scale_points ps.
Proof.
  intros Hx Hy. unfold scale_points. rewrite !map_map. cbn [fst snd].
  apply map_ext_in. intros c Hc.
  rewrite <- (map_map fst (fun u => kx * u + ax)), <- (map_map snd (fun u => ky * u + ay)).
  rewrite (axis_affine kx ax (map fst ps) (fst c)), (axis_affine ky ay (map snd ps) (snd c));
    try assumption; try (apply in_map; assumption). reflexivity.
Qed.

Lemma normalize_stretch (kx ky ax ay : R) (t : trajectory) :
  0 < kx -> 0 < ky ->
  (2 <= length (convert t))%nat ->
  normalize_trajectory (map (stretch kx ky ax ay) t) = normalize_trajectory t.
Proof.
  intros Hx Hy H.
  rewrite !normalize_scale; rewrite ?convert_stretch, ?length_map; try assumption.
  rewrite scale_points_stretch by assumption. reflexivity.
Qed.

(** X3: the normalizer does not see where a gesture was drawn or how large: a
    trajectory with at least two usable points, stretched by positive factors
    along each axis and moved, has the same normalized form. *)
Theorem normalize_stretch_invariant (kx ky ax ay : R) (t : trajectory) :
  0 < kx -> 0 < ky ->
  (2 <= length (convert t))%nat ->
  normalize_trajectory (map (stretch kx ky ax ay) t) = normalize_trajectory t.
Proof. exact (normalize_stretch kx ky ax ay t). Qed.

Lemma normalize_stretch_invariant_witness :
  normalize_trajectory (map (stretch 2 3 1 (-1)) mixed) = normalize_trajectory mixed.
Proof.
  apply (normalize_stretch_invariant 2 3 1 (-1) mixed).
  - lra.
  - lra.
  - simpl. lia.
Defined.

Lemma dist_self p : dist p p = 0.
Proof.
  unfold dist. replace ((fst p - fst p) * (fst p - fst p) + (snd p - snd p) * (snd p - snd p))
    with 0 by ring. apply sqrt_0.
Qed.

Lemma total_distance_self cs : total_distance cs cs = 0.
Proof.
  induction cs as [|p cs IH]; simpl; [reflexivity|]. rewrite dist_self, IH. lra.
Qed.

Lemma similarity_self (t : trajectory) (ps : list (R * R)) :
  coords t = Some ps -> t <> [] -> calculate_similarity t t = Some 1.
Proof.
  intros Hc Hne.
  destruct (resample_defined t ps (target_points t t) Hc) as (out & cs & Hres & Hcs & _ & _).
  unfold calculate_similarity. destruct t as [|p t]; [congruence|]. cbn [is_empty orb].
  fold (target_points (p :: t) (p :: t)). rewrite Hres. cbn [bind].
  rewrite (sum_distances_coords out out cs cs Hcs Hcs) by (rewrite ?(coords_length _ _ Hcs); lia).
  cbn [bind skipn]. rewrite total_distance_self. f_equal.
  replace ((0 + 0) / INR (length out) / max_distance) with 0 by (unfold Rdiv; ring).
  rewrite Rmax_right; lra.
Qed.

(** X4: a non-empty trajectory whose points all have two coordinates has
    similarity exactly 1 with itself. *)
Theorem similarity_of_itself (t : trajectory) (ps : list (R * R)) :
  coords t = Some ps -> t <> [] -> calculate_similarity t t = Some 1.
Proof. exact (similarity_self t ps). Qed.

Lemma similarity_of_itself_witness : calculate_similarity uneven uneven = Some 1.
Proof.
  apply (similarity_of_itself uneven uneven_coords).
  - reflexivity.
  - discriminate.
Defined.

Lemma total_distance_sym c1 : forall c2, total_distance c1 c2 = total_distance c2 c1.
Proof.
  induction c1 as [|p c1 IH]; intros [|q c2]; simpl; try reflexivity.
  rewrite (dist_sym p q), IH. reflexivity.
Qed.

(** X5: for trajectories of at least 2 points and positive path length,
    [calculate_similarity] gives the same result whichever of the two comes
    first. *)
Theorem similarity_symmetric (t1 t2 : trajectory) (length1 length2 : R) :
  (2 <= length t1)%nat -> (2 <= length t2)%nat ->
  path_length t1 = Some length1 -> path_length t2 = Some length2 ->
  0 < length1 -> 0 < length2 ->
  calculate_similarity t1 t2 = calculate_similarity t2 t1.
Proof.
  intros L1 L2 E1 E2 P1 P2.
  destruct (path_length_defined t1 length1 L1 E1) as [ps1 H1].
  destruct (path_length_defined t2 length2 L2 E2) as [ps2 H2].
  rewrite (path_length_coords t1 ps1 H1) in E1. injection E1 as E1.
  rewrite (path_length_coords t2 ps2 H2) in E2. injection E2 as E2.
  rewrite <- E1 in P1. rewrite <- E2 in P2.
  destruct (calculate_similarity_by t1 t2 ps1 ps2 H1 H2 L1 L2 P1 P2)
    as (s & -> & r1 & r2 & c1 & c2 & R1 & R2 & N1 & N2 & C1 & C2 & ->).
  destruct (calculate_similarity_by t2 t1 ps2 ps1 H2 H1 L2 L1 P2 P1)
    as (s' & -> & r2' & r1' & c2' & c1' & R2' & R1' & _ & _ & C2' & C1' & ->).
  assert (Et : target_points t2 t1 = target_points t1 t2)
    by (unfold target_points; rewrite Z.max_comm; reflexivity).
  rewrite Et in R2', R1'.
  rewrite R1 in R1'. injection R1' as <-. rewrite R2 in R2'. injection R2' as <-.
  rewrite C1 in C1'. injection C1' as <-. rewrite C2 in C2'. injection C2' as <-.
  do 4 f_equal. unfold mean_distance. rewrite (total_distance_sym c2 c1).
  f_equal. f_equal. rewrite (coords_length _ _ C1), (coords_length _ _ C2). lia.
Qed.

Lemma similarity_symmetric_witness :
  calculate_similarity uneven level = calculate_similarity level uneven.
Proof.
  apply (similarity_symmetric uneven level 4 1).
  - simpl. lia.
  - simpl. lia.
  - exact uneven_path_length.
  - exact level_path_length.
  - lra.
  - lra.
Defined.

Lemma norm2_nonneg d : 0 <= norm2 d.
Proof. apply sqrt_pos. Qed.

Lemma sum_distances_ge r1 r2 : forall ixs acc total,
  sum_distances r1 r2 ixs acc = Some total -> acc <= total.
Proof.
  induction ixs as [|i ixs IH]; intros acc total H; simpl in H.
  - injection H as <-. lra.
  - destruct (coord r1 i 0) as [x1|]; [|discriminate].
    destruct (coord r2 i 0) as [x2|]; [|discriminate].
    destruct (coord r1 i 1) as [y1|]; [|discriminate].
    destruct (coord r2 i 1) as [y2|]; [|discriminate].
    simpl in H. apply IH in H. pose proof (norm2_nonneg (x1 - x2, y1 - y2)). lra.
Qed.

Lemma similarity_range (t1 t2 : trajectory) (s : R) :
  calculate_similarity t1 t2 = Some s -> 0 <= s <= 1.
Proof.
  unfold calculate_similarity.
  destruct (is_empty t1 || is_empty t2); [intros [= <-]; lra|].
  destruct (resample_trajectory t1 _) as [r1|]; [|discriminate].
  destruct (resample_trajectory t2 _) as [r2|]; [|discriminate]. cbn [bind].
  destruct (sum_distances r1 r2 (seq 0 (length r1)) 0) as [total|] eqn:E; [|discriminate].
  cbn [bind]. intros [= <-].
  pose proof (sum_distances_ge _ _ _ _ _ E) as Hge.
  split; [apply Rmax_l|]. apply Rmax_lub; [lra|].
  assert (0 <= total / INR (length r1) / max_distance); [|lra].
  unfold max_distance. apply Rmult_le_pos; [|lra].
  destruct (length r1) as [|n] eqn:En.
  - simpl in E. injection E as <-. unfold Rdiv. lra.
  - apply Rmult_le_pos; [assumption|]. left. apply Rinv_0_lt_compat.
    apply lt_0_INR. lia.
Qed.

(** X6: whenever [calculate_similarity] returns, its result lies between 0 and 1,
    whatever the two trajectories. *)
Theorem similarity_in_unit_interval (t1 t2 : trajectory) (s : R) :
  calculate_similarity t1 t2 = Some s -> 0 <= s <= 1.
Proof. exact (similarity_range t1 t2 s). Qed.

Lemma similarity_in_unit_interval_witness : 0 <= 1 - 1 / 2 / 1.414 <= 1.
Proof.
  apply (similarity_in_unit_interval diagonal level). exact similarity_diagonal_level.
Defined.

Lemma dict_set_in d k v e : In e (dict_set d k v) -> e = (k, v) \/ In e d.
Proof.
  induction d as [|[k' v'] d IH]; simpl.
  - intros [<-|[]]. left. reflexivity.
  - destruct (String.eqb k' k).
    + intros [<-|H]; auto.
    + intros [<-|H]; [auto|]. destruct (IH H); auto.
Qed.

Lemma dict_set_fresh d k v :
  (forall e, In e d -> fst e <> k) -> dict_set d k v = d ++ [(k, v)].
Proof.
  induction d as [|[k' v'] d IH]; intros H; simpl; [reflexivity|].
  destruct (String.eqb k' k) eqn:E.
  - apply String.eqb_eq in E. exfalso. apply (H (k', v')); [left; reflexivity | exact E].
  - f_equal. apply IH. intros e He. apply H. right. assumption.
Qed.

Lemma dict_set_keys_in d k v :
  In k (map fst d) -> map fst (dict_set d k v) = map fst d.
Proof.
  induction d as [|[k' v'] d IH]; simpl; [intros []|].
  destruct (String.eqb k' k) eqn:E.
  - apply String.eqb_eq in E. subst k'. reflexivity.
  - apply String.eqb_neq in E. intros [H|H]; [congruence|]. simpl. f_equal. auto.
Qed.

Lemma dict_set_keys_new d k v :
  ~ In k (map fst d) -> map fst (dict_set d k v) = map fst d ++ [k].
Proof.
  intros H. rewrite dict_set_fresh; [rewrite map_app; reflexivity|].
  intros e He E. apply H. apply in_map_iff. exists e. auto.
Qed.

Lemma dict_get_set d k v k' :
  dict_get (dict_set d k v) k' = if String.eqb k k' then Some v else dict_get d k'.
Proof.
  induction d as [|[k0 v0] d IH]; simpl.
  - destruct (String.eqb k k'); reflexivity.
  - destruct (String.eqb k0 k) eqn:E; simpl.
    + apply String.eqb_eq in E. subst k0. destruct (String.eqb k k'); reflexivity.
    + rewrite IH. destruct (String.eqb k0 k') eqn:E'; [|reflexivity].
      apply String.eqb_eq in E'. subst k0. rewrite String.eqb_sym, E. reflexivity.
Qed.

Lemma well_kept_empty : well_kept [].
Proof. split; [constructor | intros k tpl []]. Qed.

(** X7: [add_template] keeps a recognizer well kept (no id twice, every template
    filed under its own id, with its point count and in normalized form);
    afterwards the id holds the new template with the normalized
    trajectory, every other id holds what it held, and replacing the
    template of an id that is there keeps the order of the ids. *)
Theorem add_template_keeps (d : templates) (template_id name : string) (t : trajectory) :
  well_kept d ->
  well_kept (add_template d template_id name t) /\
  dict_get (add_template d template_id name t) template_id =
    Some {| tpl_id := template_id; tpl_name := name;
            tpl_trajectory := normalize_trajectory t;
            tpl_point_count := length (normalize_trajectory t) |} /\
  (forall k, k <> template_id ->
     dict_get (add_template d template_id name t) k = dict_get d k) /\
  (In template_id (map fst d) ->
     map fst (add_template d template_id name t) = map fst d).
Proof.
  intros [Hnd Hall]. unfold add_template.
  set (v := {| tpl_id := template_id; tpl_name := name;
               tpl_trajectory := normalize_trajectory t;
               tpl_point_count := length (normalize_trajectory t) |}).
  split; [split|split; [|split]].
  - destruct (in_dec string_dec template_id (map fst d)) as [Hin|Hin].
    + rewrite dict_set_keys_in; assumption.
    + rewrite dict_set_keys_new by assumption.
      apply NoDup_app; [assumption | constructor; [intros [] | constructor] |].
      intros a Ha [<-|[]]. contradiction.
  - intros k tpl Hin. apply dict_set_in in Hin as [E|Hin]; [|apply Hall; assumption].
    injection E as -> ->. unfold v. cbn. repeat split. apply normalize_twice.
  - rewrite dict_get_set, String.eqb_refl. reflexivity.
  - intros k Hk. rewrite dict_get_set.
    destruct (String.eqb template_id k) eqn:E; [|reflexivity].
    apply String.eqb_eq in E. congruence.
  - intros Hin. apply dict_set_keys_in. assumption.
Qed.

Lemma add_template_keeps_witness :
  well_kept level_templates /\
  dict_get level_templates "temp_0_level" =
    Some {| tpl_id := "temp_0_level"; tpl_name := "level";
            tpl_trajectory := normalize_trajectory level;
            tpl_point_count := length (normalize_trajectory level) |} /\
  (forall k, k <> "temp_0_level"%string -> dict_get level_templates k = dict_get [] k) /\
  (In "temp_0_level"%string (map fst (@nil (string * template))) ->
     map fst level_templates = map fst (@nil (string * template))).
Proof.
  apply (add_template_keeps [] "temp_0_level" "level" level). exact well_kept_empty.
Defined.

Lemma dist_zero p q : dist p q = 0 -> p = q.
Proof.
  unfold dist. intros H.
  pose proof (Rle_0_sqr (fst q - fst p)) as Hx. pose proof (Rle_0_sqr (snd q - snd p)) as Hy.
  unfold Rsqr in Hx, Hy.
  apply sqrt_eq_0 in H; [|lra].
  assert (Ex : (fst q - fst p) * (fst q - fst p) = 0) by lra.
  assert (Ey : (snd q - snd p) * (snd q - snd p) = 0) by lra.
  apply Rsqr_0_uniq in Ex. apply Rsqr_0_uniq in Ey.
  destruct p as [x y], q as [x' y']. simpl in *. f_equal; lra.
Qed.

Lemma polyline_zero ps : polyline_length ps = 0 -> forall a b, In a ps -> In b ps -> a = b.
Proof.
  induction ps as [|p [|q r] IH]; intros H a b Ha Hb.
  - destruct Ha.
  - destruct Ha as [<-|[]], Hb as [<-|[]]. reflexivity.
  - change (dist p q + polyline_length (q :: r) = 0) in H.
    pose proof (dist_nonneg p q). pose proof (polyline_length_nonneg (q :: r)).
    assert (Hpq : p = q) by (apply dist_zero; lra). subst q.
    assert (Hr : polyline_length (p :: r) = 0) by lra.
    assert (Ha' : In a (p :: r)) by (destruct Ha as [<-|Ha]; [left; reflexivity | exact Ha]).
    assert (Hb' : In b (p :: r)) by (destruct Hb as [<-|Hb]; [left; reflexivity | exact Hb]).
    exact (IH Hr a b Ha' Hb').
Qed.

Lemma spread_positive_length ps :
  spread (map fst ps) \/ spread (map snd ps) -> 0 < polyline_length ps.
Proof.
  intros H. pose proof (polyline_length_nonneg ps) as Hnn.
  destruct (Req_dec (polyline_length ps) 0) as [E|E]; [exfalso|lra].
  pose proof (polyline_zero ps E) as Hall.
  destruct H as [(a & b & Ha & Hb & Hab)|(a & b & Ha & Hb & Hab)];
    apply in_map_iff in Ha as (pa & <- & Ha); apply in_map_iff in Hb as (pb & <- & Hb);
    apply Hab; rewrite (Hall pa pb Ha Hb); reflexivity.
Qed.

Lemma spread_length vs : spread vs -> (2 <= length vs)%nat.
Proof.
  intros (a & b & Ha & Hb & Hab). destruct vs as [|x [|y l]]; [destruct Ha| |simpl; lia].
  exfalso. destruct Ha as [Ha|[]], Hb as [Hb|[]]. apply Hab. congruence.
Qed.

Lemma drawable_length t : drawable t -> (2 <= length (convert t))%nat.
Proof.
  intros [H|H]; apply spread_length in H; rewrite length_map in H; assumption.
Qed.

Lemma unit_extent_spread vs : unit_extent vs -> spread vs.
Proof. intros (_ & H0 & H1). exists 0, 1. repeat split; auto; lra. Qed.

(** The normalized form of a drawable trajectory: at least two points, all
    with two coordinates, and a path of positive length. *)
Lemma normalize_drawable t :
  drawable t ->
  exists ps, coords (normalize_trajectory t) = Some ps /\
             (2 <= length (normalize_trajectory t))%nat /\ 0 < polyline_length ps.
Proof.
  intros Hd. pose proof (drawable_length t Hd) as H2.
  rewrite (normalize_scale t H2). exists (scale_points (convert t)).
  split; [apply coords_as_point|]. split; [rewrite length_map, scale_points_length; assumption|].
  apply spread_positive_length.
  assert (Hx : map fst (convert t) <> []) by (destruct (convert t); [simpl in H2; lia | discriminate]).
  assert (Hy : map snd (convert t) <> []) by (destruct (convert t); [simpl in H2; lia | discriminate]).
  destruct (axis_scaling (map fst (convert t)) Hx) as (_ & Hsx & _).
  destruct (axis_scaling (map snd (convert t)) Hy) as (_ & Hsy & _).
  unfold scale_points, axis_divisor. rewrite !map_map. cbn [fst snd].
  rewrite map_map in Hsx, Hsy.
  destruct Hd as [Hd|Hd]; [left; apply unit_extent_spread, Hsx, Hd
                          | right; apply unit_extent_spread, Hsy, Hd].
Qed.

Lemma recognize_stretched (kx ky ax ay threshold : R) (t : trajectory)
    (template_id name : string) :
  0 < kx -> 0 < ky ->
  (2 <= length (convert t))%nat ->
  threshold <= 1 ->
  recognize_gesture (add_template [] template_id name (map (stretch kx ky ax ay) t)) t threshold =
    Some (Some {| match_template_id := template_id; match_name := name;
                  match_similarity := 1; match_confidence := 1 |}).
Proof.
  intros Hx Hy H2 Hthr.
  unfold add_template. rewrite (normalize_stretch kx ky ax ay t Hx Hy H2).
  pose proof (convert_length t) as Hl.
  assert (Hc : coords (normalize_trajectory t) = Some (scale_points (convert t))).
  { rewrite (normalize_scale t H2). apply coords_as_point. }
  assert (Hlen : length (normalize_trajectory t) = length (convert t)).
  { rewrite (normalize_scale t H2), length_map. apply scale_points_length. }
  assert (Hne : normalize_trajectory t <> []).
  { intros E. rewrite E in Hlen. simpl in Hlen. lia. }
  unfold recognize_gesture. cbn [dict_set is_empty].
  replace (length t <? 2)%nat with false by (symmetry; apply Nat.ltb_ge; lia).
  replace (length (normalize_trajectory t) <? 2)%nat with false
    by (symmetry; apply Nat.ltb_ge; lia).
  cbn [best_template tpl_trajectory tpl_name].
  rewrite (similarity_self _ _ Hc Hne). cbn [bind].
  destruct (Rgt_dec 1 0) as [_|H]; [|lra].
  destruct (Rge_dec 1 threshold) as [_|H]; [|lra]. reflexivity.
Qed.



Lemma best_template_sound input thr : forall items bm bs m,
  best_template items input thr bm bs = Some (Some m) ->
  bm = Some m \/
  exists e s, In e items /\ score input e = Some s /\ m = match_of e s /\ thr <= s /\ bs < s.
Proof.
  induction items as [|[id tpl] rest IH]; intros bm bs m H.
  - simpl in H. injection H as ->. left. reflexivity.
  - cbn [best_template] in H.
    destruct (calculate_similarity input (tpl_trajectory tpl)) as [s0|] eqn:Es; [|discriminate].
    cbn [bind] in H.
    assert (Hkeep : best_template rest input thr bm bs = Some (Some m) ->
      bm = Some m \/
      exists e s, In e ((id, tpl) :: rest) /\ score input e = Some s /\ m = match_of e s /\
                  thr <= s /\ bs < s).
    { intros H'. destruct (IH _ _ _ H') as [?|(e & s & He & Hs & Hm & Ht & Hb)]; [auto|].
      right. exists e, s. repeat split; auto. right. assumption. }
    destruct (Rgt_dec s0 bs) as [Hgt|Hgt]; [destruct (Rge_dec s0 thr) as [Hge|Hge]|]; auto.
    destruct (IH _ _ _ H) as [E|(e & s & He & Hs & Hm & Ht & Hb)].
    + injection E as <-. right. exists (id, tpl), s0. repeat split; auto; try lra.
      left. reflexivity.
    + right. exists e, s. repeat split; auto; try lra. right. assumption.
Qed.

Lemma level_recognized :
  recognize_gesture level_templates level (1 / 2) =
    Some (Some {| match_template_id := "temp_0_level"; match_name := "level";
                  match_similarity := 1; match_confidence := 1 |}).
Proof.
  assert (E : level_templates = add_template [] "temp_0_level" "level"
                                  (map (stretch 1 1 0 0) level)).
  { unfold level_templates, level. cbn [map stretch].
    replace (1 * 0 + 0) with 0 by ring. replace (1 * 1 + 0) with 1 by ring. reflexivity. }
  rewrite E. apply recognize_stretched; [lra | lra | simpl; lia | lra].
Qed.

(** X9: a match that [recognize_gesture] returns names a template of the
    recognizer; its similarity is what [calculate_similarity] gives for the
    normalized input and that template, it is the confidence, it meets the
    threshold, and it is positive and at most 1. *)
Theorem recognized_match_sound (d : templates) (t : trajectory) (threshold : R)
    (m : gesture_match) :
  recognize_gesture d t threshold = Some (Some m) ->
  exists template_id tpl,
    In (template_id, tpl) d /\
    match_template_id m = template_id /\ match_name m = tpl_name tpl /\
    calculate_similarity (normalize_trajectory t) (tpl_trajectory tpl) = Some (match_similarity m) /\
    match_confidence m = match_similarity m /\
    threshold <= match_similarity m /\ 0 < match_similarity m <= 1.
Proof.
  unfold recognize_gesture.
  destruct (length t <? 2)%nat; [discriminate|].
  destruct (is_empty d); [discriminate|].
  destruct (length (normalize_trajectory t) <? 2)%nat; [discriminate|].
  intros H. apply best_template_sound in H as [H|([id tpl] & s & He & Hs & -> & Ht & Hb)];
    [discriminate|].
  exists id, tpl. unfold score in Hs. cbn [snd] in Hs.
  pose proof (similarity_range _ _ _ Hs) as Hr.
  repeat split; auto; cbn [match_similarity match_of]; lra.
Qed.

Lemma recognized_match_sound_witness :
  exists template_id tpl,
    In (template_id, tpl) level_templates /\
    "temp_0_level"%string = template_id /\ "level"%string = tpl_name tpl /\
    calculate_similarity (normalize_trajectory level) (tpl_trajectory tpl) = Some 1 /\
    1 = 1 /\ 1 / 2 <= 1 /\ 0 < 1 <= 1.
Proof.
  apply (recognized_match_sound level_templates level (1 / 2)
           {| match_template_id := "temp_0_level"; match_name := "level";
              match_similarity := 1; match_confidence := 1 |}).
  exact level_recognized.
Defined.

(** Two runs of the loop of [recognize_gesture], the second with a lower
    threshold: either they are in the same state, or the first has found
    nothing yet and the second holds a template below the first threshold. *)
Lemma best_template_lower input thr thr' : thr' <= thr ->
  forall items bm bs bm' bs' m,
  (bm = bm' /\ bs = bs' /\ (bm = None \/ thr <= bs)) \/ (bm = None /\ bs <= bs' < thr) ->
  best_template items input thr bm bs = Some (Some m) ->
  best_template items input thr' bm' bs' = Some (Some m).
Proof.
  intros Hle. induction items as [|[id tpl] rest IH]; intros bm bs bm' bs' m Hinv H.
  - simpl in H. injection H as ->.
    destruct Hinv as [(<- & _)|(E & _)]; [reflexivity | discriminate].
  - cbn [best_template] in *.
    destruct (calculate_similarity input (tpl_trajectory tpl)) as [s|]; [|discriminate].
    cbn [bind] in *.
    destruct (Rgt_dec s bs) as [G|G]; [destruct (Rge_dec s thr) as [T|T]|].
    + (* the first run takes the template: so does the second *)
      destruct (Rgt_dec s bs') as [_|G']; [|exfalso; destruct Hinv as [(_ & E & _)|(_ & E)]; lra].
      destruct (Rge_dec s thr') as [_|T']; [|exfalso; lra].
      refine (IH _ _ _ _ m _ H). left. repeat split. right. lra.
    + (* below the first threshold *)
      assert (En : bm = None).
      { destruct Hinv as [(_ & _ & [En|Et])|(En & _)]; [assumption | exfalso; lra | assumption]. }
      destruct (Rgt_dec s bs') as [G'|G']; [destruct (Rge_dec s thr') as [T'|T']|];
        refine (IH _ _ _ _ m _ H).
      * right. split; [assumption | lra].
      * destruct Hinv as [(Eb & E & Hj)|(_ & E)]; [left; auto | right; split; [assumption|lra]].
      * destruct Hinv as [(Eb & E & Hj)|(_ & E)]; [left; auto | right; split; [assumption|lra]].
    + (* not above the best of the first run *)
      destruct Hinv as [(Eb & E & Hj)|(En & E)].
      * subst bm' bs'. destruct (Rgt_dec s bs) as [G'|_]; [contradiction|].
        refine (IH _ _ _ _ m _ H). left. auto.
      * destruct (Rgt_dec s bs') as [G'|G']; [exfalso; lra|].
        refine (IH _ _ _ _ m _ H). right. split; [assumption|lra].
Qed.

(** X10: lowering the threshold never loses or changes a recognized gesture: a
    match that [recognize_gesture] returns for a threshold is returned for
    every lower threshold. *)
Theorem lower_threshold_keeps_match (d : templates) (t : trajectory) (threshold threshold' : R)
    (m : gesture_match) :
  threshold' <= threshold ->
  recognize_gesture d t threshold = Some (Some m) ->
  recognize_gesture d t threshold' = Some (Some m).
Proof.
  intros Hle. unfold recognize_gesture.
  destruct (length t <? 2)%nat; [discriminate|].
  destruct (is_empty d); [discriminate|].
  destruct (length (normalize_trajectory t) <? 2)%nat; [discriminate|].
  apply (best_template_lower _ _ _ Hle). left. auto.
Qed.

Lemma lower_threshold_keeps_match_witness :
  recognize_gesture level_templates level (1 / 4) =
    Some (Some {| match_template_id := "temp_0_level"; match_name := "level";
                  match_similarity := 1; match_confidence := 1 |}).
Proof.
  apply (lower_threshold_keeps_match level_templates level (1 / 2) (1 / 4)).
  - lra.
  - exact level_recognized.
Defined.

Lemma digits_no_underscore d : has_underscore (NilEmpty.string_of_uint d) = false.
Proof. induction d; simpl; auto. Qed.

Lemma decimal_no_underscore n : has_underscore (NilZero.string_of_uint (Nat.to_uint n)) = false.
Proof.
  unfold NilZero.string_of_uint. destruct (Nat.to_uint n); try apply digits_no_underscore.
  reflexivity.
Qed.

Lemma underscore_splits s1 : forall s2 r1 r2,
  has_underscore s1 = false -> has_underscore s2 = false ->
  (s1 ++ String "_" r1 = s2 ++ String "_" r2)%string -> s1 = s2.
Proof.
  induction s1 as [|c s1 IH]; intros [|c2 s2] r1 r2 H1 H2 E; simpl in *.
  - reflexivity.
  - injection E as Ec _. subst c2. simpl in H2. discriminate.
  - injection E as Ec _. subst c. simpl in H1. discriminate.
  - injection E as -> E. apply orb_false_elim in H1 as [_ H1].
    apply orb_false_elim in H2 as [_ H2]. f_equal. eapply IH; eassumption.
Qed.

Lemma decimal_inj n n' :
  NilZero.string_of_uint (Nat.to_uint n) = NilZero.string_of_uint (Nat.to_uint n') -> n = n'.
Proof.
  intros E. apply Unsigned.to_uint_inj.
  assert (Hn : forall k, Nat.to_uint k <> Decimal.Nil).
  { intros k. rewrite <- (Unsigned.of_to k), Unsigned.to_of at 1. apply unorm_nonnil. }
  pose proof (NilZero.usu _ (Hn n)) as U. pose proof (NilZero.usu _ (Hn n')) as U'.
  rewrite E in U. rewrite U in U'. injection U' as ->. reflexivity.
Qed.

Lemma template_key_inj i j n m : template_key i n = template_key j m -> i = j.
Proof.
  unfold template_key. intros E. simpl in E. injection E as E.
  apply decimal_inj. eapply underscore_splits; try apply decimal_no_underscore.
  exact E.
Qed.

Lemma load_templates_from : forall l d i,
  (forall e, In e d -> exists j n, (j < i)%nat /\ fst e = template_key j n) ->
  load_templates d i l = d ++ map (fun p => loaded (fst p) (snd p)) (enumerate_from i l).
Proof.
  induction l as [|tm l IH]; intros d i Hd; simpl.
  - rewrite app_nil_r. reflexivity.
  - unfold add_template. fold (template_key i (get_default (tm_name tm) "unknown"%string)).
    rewrite dict_set_fresh.
    + rewrite IH.
      * rewrite <- app_assoc. reflexivity.
      * intros e He. apply in_app_or in He as [He|[<-|[]]].
        -- destruct (Hd e He) as (j & n & Hj & E). exists j, n. split; [lia | assumption].
        -- exists i, (get_default (tm_name tm) "unknown"%string). split; [lia | reflexivity].
    + intros e He E. destruct (Hd e He) as (j & n & Hj & Ej). rewrite Ej in E.
      apply template_key_inj in E. lia.
Qed.

(** X11: the temporary recognizer that [websocket_endpoint] builds holds every
    template sent, in the order sent: the ids [temp_<i>_<name>] never
    collide, so no template replaces another, also when names repeat. *)
Theorem load_templates_keeps_all (l : list template_msg) :
  load_templates [] 0 l = map (fun p => loaded (fst p) (snd p)) (enumerate_from 0 l).
Proof.
  rewrite load_templates_from; [reflexivity|]. intros e [].
Qed.

Lemma drawable_diagonal : drawable diagonal.
Proof. left. exists 0, 1. simpl. repeat split; auto; lra. Qed.

Lemma sum_distances_short r1 r2 : forall ixs acc i,
  In i ixs -> coord r2 i 0 = None -> sum_distances r1 r2 ixs acc = None.
Proof.
  induction ixs as [|j ixs IH]; intros acc i Hi Hn; [destruct Hi|].
  simpl. destruct Hi as [->|Hi].
  - rewrite Hn. destruct (coord r1 i 0); reflexivity.
  - destruct (coord r1 j 0); [|reflexivity]. destruct (coord r2 j 0); [|reflexivity].
    destruct (coord r1 j 1); [|reflexivity]. destruct (coord r2 j 1); [|reflexivity].
    simpl. eapply IH; eassumption.
Qed.

(** A template of one point cannot be scored against a drawn gesture. *)
Lemma score_one_point input ps p :
  coords input = Some ps -> (2 <= length input)%nat -> 0 < polyline_length ps ->
  calculate_similarity input [p] = None.
Proof.
  intros Hc Hlen Hpos. unfold calculate_similarity.
  destruct input as [|q input]; [simpl in Hlen; lia|]. cbn [is_empty orb].
  set (K := Z.min 50 (Z.max (Z.of_nat (length (q :: input))) (Z.of_nat (length [p])))).
  assert (HK : (2 <= K)%Z) by (unfold K; simpl length in *; lia).
  destruct (resample_total (q :: input) ps K Hc Hlen Hpos HK) as (out & cs & -> & Hn & _).
  cbn [bind].
  assert (Hp : resample_trajectory [p] K = Some [p]) by reflexivity.
  rewrite Hp. cbn [bind].
  rewrite (sum_distances_short out [p] _ 0 1%nat); [reflexivity| |reflexivity].
  apply in_seq. lia.
Qed.

Lemma best_template_raises input thr : forall items bm bs e,
  In e items -> score input e = None -> best_template items input thr bm bs = None.
Proof.
  induction items as [|[id tpl] rest IH]; intros bm bs e He Hs; [destruct He|].
  cbn [best_template]. destruct He as [<-|He].
  - unfold score in Hs. cbn [snd] in Hs. rewrite Hs. reflexivity.
  - destruct (calculate_similarity input (tpl_trajectory tpl)); [|reflexivity]. cbn [bind].
    destruct (Rgt_dec _ _); [destruct (Rge_dec _ _)|]; eapply IH; eassumption.
Qed.

Lemma enumerate_in {A} (l : list A) : forall i x, In x l -> exists j, In (j, x) (enumerate_from i l).
Proof.
  induction l as [|y l IH]; intros i x H; [destruct H|].
  destruct H as [<-|H]; simpl.
  - exists i. left. reflexivity.
  - destruct (IH (S i) x H) as [j Hj]. exists j. right. assumption.
Qed.

(** X13: one template of a single point among the templates sent makes the
    recognition of every gesture that varies along some axis raise, so the
    answer on [/ws] is the error reply, whatever the other templates. *)
Theorem one_point_template_fails (sv : server) (m : message) (tm : template_msg) :
  drawable (get_default (msg_trajectory m) []) ->
  In tm (get_default (msg_templates m) []) ->
  length (get_default (tm_trajectory tm) []) = 1%nat ->
  recognize_reply sv m = RecognitionFailed.
Proof.
  intros Hd Hin Hone.
  destruct (normalize_drawable _ Hd) as (ps & Hc & Hlen & Hpos).
  pose proof (drawable_length _ Hd) as H2. pose proof (convert_length (get_default (msg_trajectory m) [])) as Hl.
  unfold recognize_reply.
  replace (length (get_default (msg_trajectory m) []) <? 2)%nat with false
    by (symmetry; apply Nat.ltb_ge; lia).
  destruct (get_default (msg_templates m) []) as [|tm0 l] eqn:El; [destruct Hin|].
  cbn [is_empty]. rewrite <- El in *.
  destruct (enumerate_in _ 0%nat tm Hin) as [j Hj].
  assert (He : In (loaded j tm) (load_templates [] 0 (get_default (msg_templates m) []))).
  { rewrite load_templates_from by (intros e []). simpl.
    apply in_map_iff. exists (j, tm). split; [reflexivity | assumption]. }
  assert (Hs : score (normalize_trajectory (get_default (msg_trajectory m) [])) (loaded j tm) = None).
  { unfold score, loaded. cbn [snd tpl_trajectory].
    rewrite (normalize_short (get_default (tm_trajectory tm) [])) by lia.
    destruct (get_default (tm_trajectory tm) []) as [|p [|? ?]]; try discriminate.
    apply (score_one_point _ ps); assumption. }
  unfold recognize_gesture.
  replace (length (get_default (msg_trajectory m) []) <? 2)%nat with false
    by (symmetry; apply Nat.ltb_ge; lia).
  destruct (load_templates [] 0 (get_default (msg_templates m) [])) as [|e0 d0] eqn:Ed;
    [destruct He|]. cbn [is_empty].
  replace (length (normalize_trajectory (get_default (msg_trajectory m) [])) <? 2)%nat with false
    by (symmetry; apply Nat.ltb_ge; lia).
  rewrite (best_template_raises _ _ _ _ _ _ He Hs). reflexivity.
Qed.

Lemma one_point_template_fails_witness :
  recognize_reply (server_init None)
                  (recognize_message diagonal [level_template_msg; dot_template_msg])
    = RecognitionFailed.
Proof.
  apply (one_point_template_fails (server_init None)
           (recognize_message diagonal [level_template_msg; dot_template_msg])
           dot_template_msg).
  - exact drawable_diagonal.
  - right. left. reflexivity.
  - reflexivity.
Defined.

Close Scope R_scope.

(** *** The detection pipeline *)

Lemma Qltb_lt a b : Qltb a b = true -> (a < b)%Q.
Proof.
  unfold Qltb. intros H. apply negb_true_iff in H.
  apply Qnot_le_lt. intros Hle. apply Qle_bool_iff in Hle. congruence.
Qed.

Lemma Qltb_ge a b : Qltb a b = false -> (b <= a)%Q.
Proof.
  unfold Qltb. intros H. apply negb_false_iff in H. apply Qle_bool_iff. assumption.
Qed.

Lemma max_confidence_fold others : forall first,
  let best := max_confidence first others in
  (pred_confidence first <= pred_confidence best)%Q /\
  (forall q, In q others -> (pred_confidence q <= pred_confidence best)%Q) /\
  (best = first \/ In best others).
Proof.
  unfold max_confidence.
  induction others as [|p others IH]; intros first; simpl.
  - split; [apply Qle_refl|]. split; [intros q []|]. left. reflexivity.
  - destruct (Qltb (pred_confidence first) (pred_confidence p)) eqn:E.
    + destruct (IH p) as (H1 & H2 & H3). split; [|split].
      * apply Qle_trans with (pred_confidence p); [|assumption].
        apply Qlt_le_weak. apply Qltb_lt. assumption.
      * intros q [<-|Hq]; auto.
      * destruct H3 as [->|H3]; auto.
    + destruct (IH first) as (H1 & H2 & H3). split; [assumption|]. split.
      * intros q [<-|Hq]; [|auto].
        apply Qle_trans with (pred_confidence first); [|assumption].
        apply Qltb_ge. assumption.
      * destruct H3 as [->|H3]; auto.
Qed.

(** The three ways a call of [process_frame] can end. *)
Lemma process_frame_cases cm ext fr thr :
  process_frame cm ext fr thr = (cm, Returned None) \/
  (exists o, (o = Returned None \/ o = Raised) /\
     process_frame cm ext fr thr = (set_frame_count cm (S (frame_count cm)), o)) \/
  (exists d, Qltb thr (det_confidence d) = true /\
     process_frame cm ext fr thr =
       (record_detection (set_frame_count cm (S (frame_count cm))) ext d, Returned (Some d))).
Proof.
  unfold process_frame.
  destruct (tracking_enabled cm); [|auto].
  destruct (model cm) as [infer|]; [|auto].
  destruct fr as [f|]; [|auto].
  destruct (cv2_resize ext f (detection_frame_size cm)) as [df|]; [|right; left; eauto].
  destruct (infer df thr) as [|[|r rest]]; [right; left; eauto | right; left; eauto |].
  destruct (res_predictions r) as [[|p ps]|]; [right; left; eauto | | right; left; eauto].
  destruct (Qltb thr (pred_confidence (max_confidence p ps))) eqn:E; [|right; left; eauto].
  right. right. eexists. split; [|reflexivity]. exact E.
Qed.

Lemma deque_append_length maxlen d x :
  (length d <= maxlen)%nat -> (0 < maxlen)%nat ->
  (length (deque_append maxlen d x) <= maxlen)%nat.
Proof.
  intros H Hpos. unfold deque_append.
  destruct (maxlen <=? length d)%nat eqn:E.
  - apply Nat.leb_le in E. rewrite length_app. simpl.
    destruct d; simpl in *; lia.
  - apply Nat.leb_gt in E. rewrite length_app. simpl. lia.
Qed.

Lemma record_detection_window cm ext d :
  (length (detection_times cm) <= 30)%nat ->
  (length (detection_times (record_detection cm ext d)) <= 30)%nat.
Proof.
  intros H. unfold record_detection. cbn [detection_times].
  match goal with |- context [if ?b then [] else _] => destruct b end; [simpl; lia|].
  apply deque_append_length; [assumption | lia].
Qed.

(** X14: a detection that [process_frame] returns has a confidence strictly above
    the threshold; it is the stored current detection, both counters have
    gone up by one, and it is the rescaling to the frame of a prediction of
    the first result of the detector whose confidence no other prediction
    of that result exceeds. *)
Theorem detection_is_best (cm cm' : camera_manager) (ext : externals) (fr : option frame)
    (threshold : Q) (d : detection) :
  process_frame cm ext fr threshold = (cm', Returned (Some d)) ->
  (threshold < det_confidence d)%Q /\
  current_detections cm' = [d] /\
  detection_count cm' = S (detection_count cm) /\
  frame_count cm' = S (frame_count cm) /\
  exists infer f resized r rest p,
    model cm = Some infer /\ fr = Some f /\
    cv2_resize ext f (detection_frame_size cm) = Some resized /\
    infer resized threshold = InferReturns (r :: rest) /\
    In p (predictions_of r) /\
    rescaled (detection_frame_size cm) f p d /\
    forall q, In q (predictions_of r) -> (pred_confidence q <= det_confidence d)%Q.
Proof.
  unfold process_frame.
  destruct (tracking_enabled cm); [|discriminate].
  destruct (model cm) as [infer|]; [|discriminate].
  destruct fr as [f|]; [|discriminate].
  destruct (cv2_resize ext f (detection_frame_size cm)) as [df|] eqn:Er; [|discriminate].
  destruct (infer df threshold) as [|[|r rest]] eqn:Ei; try discriminate.
  destruct (res_predictions r) as [[|p ps]|] eqn:Ep; try discriminate.
  destruct (Qltb threshold (pred_confidence (max_confidence p ps))) eqn:E; [|discriminate].
  intros H. injection H as <- <-.
  destruct (max_confidence_fold ps p) as (H1 & H2 & H3).
  split; [apply Qltb_lt; exact E|]. repeat split.
  exists infer, f, df, r, rest, (max_confidence p ps).
  unfold predictions_of. rewrite Ep. repeat split; try reflexivity; try assumption.
  - destruct H3 as [->|H3]; [left; reflexivity | right; assumption].
  - intros q [<-|Hq]; cbn [det_confidence]; auto.
Qed.

Lemma detection_is_best_witness :
  (3 # 4 < det_confidence hand_detection)%Q /\
  current_detections
    (record_detection (set_frame_count (camera_init (Some one_hand) true) 1) still_world
                      hand_detection) = [hand_detection] /\
  detection_count
    (record_detection (set_frame_count (camera_init (Some one_hand) true) 1) still_world
                      hand_detection) = 1%nat /\
  frame_count
    (record_detection (set_frame_count (camera_init (Some one_hand) true) 1) still_world
                      hand_detection) = 1%nat /\
  exists infer f resized r rest p,
    Some one_hand = Some infer /\ Some blank = Some f /\
    cv2_resize still_world f 320 = Some resized /\
    infer resized (3 # 4) = InferReturns (r :: rest) /\
    In p (predictions_of r) /\
    rescaled 320 f p hand_detection /\
    forall q, In q (predictions_of r) -> (pred_confidence q <= det_confidence hand_detection)%Q.
Proof.
  apply (detection_is_best (camera_init (Some one_hand) true) _ still_world (Some blank) (3 # 4)
                           hand_detection).
  exact hand_detected.
Defined.

Lemma no_detection_state cm cm' ext fr thr o :
  process_frame cm ext fr thr = (cm', o) ->
  (forall d, o <> Returned (Some d)) ->
  cm' = cm \/ cm' = set_frame_count cm (S (frame_count cm)).
Proof.
  intros H Hno.
  destruct (process_frame_cases cm ext fr thr) as [E|[(o' & _ & E)|(d & _ & E)]];
    rewrite E in H; injection H as <- <-; auto.
  exfalso. apply (Hno d). reflexivity.
Qed.

(** X15: a call of [process_frame] that returns no detection or raises changes
    nothing but, at most, the frame counter, which goes up by one: the
    detection counter, the latency window, the start time, the stored
    detection and the tracking flag stay. *)
Theorem no_detection_keeps_statistics (cm cm' : camera_manager) (ext : externals)
    (fr : option frame) (threshold : Q) (o : outcome (option detection)) :
  process_frame cm ext fr threshold = (cm', o) ->
  (forall d, o <> Returned (Some d)) ->
  (frame_count cm' = frame_count cm \/ frame_count cm' = S (frame_count cm)) /\
  detection_count cm' = detection_count cm /\
  detection_times cm' = detection_times cm /\
  fps_start_time cm' = fps_start_time cm /\
  current_detections cm' = current_detections cm /\
  tracking_enabled cm' = tracking_enabled cm.
Proof.
  intros H Hno.
  destruct (no_detection_state _ _ _ _ _ _ H Hno) as [->| ->]; repeat split; auto.
Qed.

Lemma no_detection_keeps_statistics_witness :
  (frame_count (set_frame_count (camera_init (Some failing_detector) true) 1) = 0%nat \/
   frame_count (set_frame_count (camera_init (Some failing_detector) true) 1) = 1%nat) /\
  detection_count (set_frame_count (camera_init (Some failing_detector) true) 1) = 0%nat /\
  detection_times (set_frame_count (camera_init (Some failing_detector) true) 1) = [] /\
  fps_start_time (set_frame_count (camera_init (Some failing_detector) true) 1) = 0%Q /\
  current_detections (set_frame_count (camera_init (Some failing_detector) true) 1) = [] /\
  tracking_enabled (set_frame_count (camera_init (Some failing_detector) true) 1) = true.
Proof.
  apply (no_detection_keeps_statistics (camera_init (Some failing_detector) true) _ still_world
                                       (Some blank) (3 # 4) (Returned None)).
  - reflexivity.
  - intros d. discriminate.
Defined.

Lemma py_int_le a b : (a <= b)%Q -> (py_int a <= py_int b)%Z.
Proof.
  intros H. unfold py_int.
  destruct (Qle_bool 0 a) eqn:Ea, (Qle_bool 0 b) eqn:Eb.
  - apply Qfloor_resp_le. assumption.
  - apply Qle_bool_iff in Ea. exfalso.
    assert (Hb : (0 <= b)%Q) by (eapply Qle_trans; eassumption).
    apply Qle_bool_iff in Hb. congruence.
  - apply Qle_bool_iff in Eb.
    assert (Ha : (a <= 0)%Q).
    { apply Qnot_lt_le. intros Hlt. apply Qlt_le_weak in Hlt.
      apply Qle_bool_iff in Hlt. congruence. }
    apply Z.le_trans with 0%Z.
    + change 0%Z with (Qceiling 0). apply Qceiling_resp_le. assumption.
    + change 0%Z with (Qfloor 0). apply Qfloor_resp_le. assumption.
  - apply Qceiling_resp_le. assumption.
Qed.

Lemma py_int_Z z : py_int (inject_Z z) = z.
Proof.
  unfold py_int. destruct (Qle_bool 0 (inject_Z z)); [apply Qfloor_Z | apply Qceiling_Z].
Qed.

Lemma half_nonneg w : (0 <= w)%Q -> (0 <= w / 2)%Q.
Proof.
  intros H. unfold Qdiv. apply Qmult_le_0_compat; [assumption|]. discriminate.
Qed.

Lemma Qminus_le x h : (0 <= h)%Q -> (x - h <= x)%Q.
Proof.
  intros H. unfold Qminus. rewrite <- (Qplus_0_r x) at 2. apply Qplus_le_r.
  apply (Qopp_le_compat 0 h). assumption.
Qed.

Lemma Qplus_ge x h : (0 <= h)%Q -> (x <= x + h)%Q.
Proof.
  intros H. rewrite <- (Qplus_0_r x) at 1. apply Qplus_le_r. assumption.
Qed.

(** One axis of the box: clamped to the frame, and in order when the centre
    is in the frame. *)
Lemma clamped_axis (size : nat) (x w : Q) :
  let lo := Z.max 0 (py_int (x - w / 2)) in
  let hi := Z.min (Z.of_nat size) (py_int (x + w / 2)) in
  (0 <= lo /\ hi <= Z.of_nat size)%Z /\
  ((0 <= w)%Q -> (0 <= x)%Q -> (x <= inject_Z (Z.of_nat size))%Q -> (lo <= hi)%Z).
Proof.
  intros lo hi. split; [unfold lo, hi; lia|].
  intros Hw Hx HxW. pose proof (half_nonneg w Hw) as Hh.
  assert (H1 : (py_int (x - w / 2) <= py_int (x + w / 2))%Z).
  { apply py_int_le. eapply Qle_trans; [apply Qminus_le | apply Qplus_ge]; assumption. }
  assert (H2 : (0 <= py_int (x + w / 2))%Z).
  { change 0%Z with (py_int 0). apply py_int_le.
    eapply Qle_trans; [exact Hx | apply Qplus_ge; assumption]. }
  assert (H3 : (py_int (x - w / 2) <= Z.of_nat size)%Z).
  { rewrite <- (py_int_Z (Z.of_nat size)). apply py_int_le.
    eapply Qle_trans; [apply Qminus_le; assumption | exact HxW]. }
  unfold lo, hi. lia.
Qed.

Lemma box_inside (f : frame) (d : detection) (x1 y1 x2 y2 : Z) :
  box_corners f d = (x1, y1, x2, y2) ->
  (0 <= x1 /\ 0 <= y1 /\ x2 <= Z.of_nat (frame_width f) /\
   y2 <= Z.of_nat (frame_height f))%Z /\
  ((0 <= det_width d)%Q -> (0 <= det_x d)%Q ->
   (det_x d <= inject_Z (Z.of_nat (frame_width f)))%Q -> (x1 <= x2)%Z) /\
  ((0 <= det_height d)%Q -> (0 <= det_y d)%Q ->
   (det_y d <= inject_Z (Z.of_nat (frame_height f)))%Q -> (y1 <= y2)%Z).
Proof.
  unfold box_corners. intros [= <- <- <- <-].
  destruct (clamped_axis (frame_width f) (det_x d) (det_width d)) as [[Hx1 Hx2] Hx].
  destruct (clamped_axis (frame_height f) (det_y d) (det_height d)) as [[Hy1 Hy2] Hy].
  repeat split; assumption.
Qed.

(** X16: every rectangle that [_draw_detections_fast] draws has its corners
    inside the frame and the colour of its detection; along an axis where
    the size of the detection is not negative and its centre is in the
    frame, the first corner is not beyond the second.  The arithmetic is
    exact. *)
Theorem drawn_box_inside (f : frame) (detections : list detection) (x1 y1 x2 y2 : Z)
    (c : colour) (thickness : Z) :
  In (Rectangle x1 y1 x2 y2 c thickness) (draw_detections_fast f detections) ->
  (0 <= x1 /\ 0 <= y1 /\ x2 <= Z.of_nat (frame_width f) /\
   y2 <= Z.of_nat (frame_height f))%Z /\
  exists d, In d detections /\ c = box_colour (det_confidence d) /\
    ((0 <= det_width d)%Q -> (0 <= det_x d)%Q ->
     (det_x d <= inject_Z (Z.of_nat (frame_width f)))%Q -> (x1 <= x2)%Z) /\
    ((0 <= det_height d)%Q -> (0 <= det_y d)%Q ->
     (det_y d <= inject_Z (Z.of_nat (frame_height f)))%Q -> (y1 <= y2)%Z).
Proof.
  unfold draw_detections_fast. intros Hin. apply in_flat_map in Hin as (d & Hd & Hin).
  destruct (box_corners f d) as [[[a1 b1] a2] b2] eqn:E.
  destruct Hin as [Hin|[Hin|[]]]; [|discriminate].
  injection Hin as <- <- <- <- <- _.
  destruct (box_inside f d a1 b1 a2 b2 E) as (H & Hx & Hy).
  split; [exact H|]. exists d. repeat split; assumption.
Qed.

Lemma drawn_box_inside_witness :
  (0 <= 240 /\ 0 <= 180 /\ 400 <= Z.of_nat (frame_width blank) /\
   300 <= Z.of_nat (frame_height blank))%Z /\ (240 <= 400)%Z /\ (180 <= 300)%Z.
Proof.
  destruct (drawn_box_inside blank [hand_detection] 240 180 400 300 (0, 255, 0)%Z 2)
    as (H & d & Hd & _ & Hx & Hy).
  - left. reflexivity.
  - destruct Hd as [<-|[]]. split; [exact H|]. split.
    + apply Hx; discriminate.
    + apply Hy; discriminate.
Defined.

(** *** The handlers and the state they share *)

(** What one turn of each handler does to the camera manager. *)
Lemma frame_stream_camera sv c ext i :
  let cm' := camera (turn_server (frame_stream_endpoint sv c ext i)) in
  cm' = camera sv \/ cm' = set_tracking (camera sv) true \/
  exists f, cm' = fst (process_frame (camera sv) ext (Some f)
                                     (current_hand_detection_confidence sv)).
Proof.
  destruct i as [| |m]; unfold frame_stream_endpoint; cbv zeta; auto.
  destruct (eqs (msg_type m) "ping"); [auto|].
  destruct (eqs (msg_type m) "refresh_detection").
  { cbn [turn_server camera with_camera]. destruct (tracking_enabled (camera sv)); auto. }
  destruct (eqs (msg_type m) "update_confidence"); [auto|].
  destruct (eqs (msg_type m) "frame"); [|auto].
  destruct (should_process (frame_skip_counter (bump c)) (process_every_nth_frame (bump c)))
    as [go|]; [|auto].
  destruct (frame_field m) as [data|]; [|auto].
  destruct (truthy (Some data) && tracking_enabled (camera sv) && go); [|auto].
  unfold decode_and_detect. destruct data as [s|b]; [|auto].
  destruct (b64_imdecode ext (base64_part s)) as [| |f]; [auto | auto |].
  right. right. exists f.
  destruct (process_frame (camera sv) ext (Some f) (current_hand_detection_confidence sv))
    as [cm [d|]]; reflexivity.
Qed.

Lemma websocket_camera sv ext i :
  let cm' := camera (turn_server (websocket_endpoint sv ext i)) in
  cm' = camera sv \/ cm' = set_tracking (camera sv) true \/
  cm' = set_current_detections (set_tracking (camera sv) false) [].
Proof.
  destruct i as [| |m]; unfold websocket_endpoint; cbv zeta; auto.
  repeat match goal with |- context [if ?b then _ else _] => destruct b end; auto.
Qed.

(** A property of the camera manager that holds at start-up and is kept by
    the tracking switch, by the clearing of the detection, by a change of
    model and by [process_frame] holds in every state of a run. *)
Lemma run_invariant (P : camera_manager -> Prop) :
  (forall cm, fresh cm -> P cm) ->
  (forall cm b, P cm -> P (set_tracking cm b)) ->
  (forall cm, P cm -> P (set_current_detections cm [])) ->
  (forall cm available key loaded, P cm -> P (initialize_model cm available key loaded)) ->
  (forall cm, P cm -> P (release cm)) ->
  (forall cm ext fr thr, P cm -> P (fst (process_frame cm ext fr thr))) ->
  forall sv, run sv -> P (camera sv).
Proof.
  intros Hfresh Htrack Hclear Hinit Hrel Hframe sv Hrun.
  induction Hrun as [sv Hf|sv ext i Hrun IH|sv c ext i Hrun IH|sv a k l Hrun IH|sv Hrun IH].
  - apply Hfresh. assumption.
  - destruct (websocket_camera sv ext i) as [E|[E|E]]; rewrite E; auto.
  - destruct (frame_stream_camera sv c ext i) as [E|[E|[f E]]]; rewrite E; auto.
  - cbn [camera with_camera]. auto.
  - cbn [camera with_camera]. auto.
Qed.

Lemma fresh_init infer : fresh (camera (server_init infer)).
Proof. repeat split. Qed.

Lemma run_feed n : forall sv c, run sv -> run (feed n sv c).
Proof.
  induction n as [|n IH]; intros sv c H; cbn [feed]; [exact H|].
  apply IH. apply run_frame_stream. exact H.
Qed.

(** After 40 frames with a hand, 40 detections have been appended to the
    window, and 30 are left. *)
Lemma window_after_40 :
  detection_count (camera (feed 40 (server_init (Some one_hand)) frame_conn_init)) = 40%nat /\
  length (detection_times (camera (feed 40 (server_init (Some one_hand)) frame_conn_init)))
    = 30%nat.
Proof. vm_compute. split; reflexivity. Qed.

(** X17: in every state of a run (start-up, turns of the two handlers, loads of
    the model, release) the latency window holds at most 30 entries. *)
Theorem latency_window_bounded (sv : server) :
  run sv -> (length (detection_times (camera sv)) <= 30)%nat.
Proof.
  apply (run_invariant (fun cm => (length (detection_times cm) <= 30)%nat)).
  - intros cm (_ & _ & _ & -> & _). simpl. lia.
  - intros cm b H. exact H.
  - intros cm H. exact H.
  - intros cm a k l H. unfold initialize_model. destruct (a && _); exact H.
  - intros cm H. exact H.
  - intros cm ext fr thr H.
    destruct (process_frame_cases cm ext fr thr) as [E|[(o & _ & E)|(d & _ & E)]];
      rewrite E; cbn [fst]; try assumption.
    apply record_detection_window. assumption.
Qed.

Lemma latency_window_bounded_witness :
  detection_count (camera (feed 40 (server_init (Some one_hand)) frame_conn_init)) = 40%nat /\
  length (detection_times (camera (feed 40 (server_init (Some one_hand)) frame_conn_init)))
    = 30%nat /\
  (length (detection_times (camera (feed 40 (server_init (Some one_hand)) frame_conn_init)))
   <= 30)%nat.
Proof.
  split; [exact (proj1 window_after_40)|]. split; [exact (proj2 window_after_40)|].
  apply (latency_window_bounded (feed 40 (server_init (Some one_hand)) frame_conn_init)).
  apply run_feed. apply run_start. apply fresh_init.
Defined.

(** X18: in every state of a run [health_check] reports no more detections made
    than frames processed. *)
Theorem detections_at_most_frames (sv : server) (inference_available : bool) :
  run sv ->
  (health_detections_made (health_check sv inference_available) <=
   health_frames_processed (health_check sv inference_available))%nat.
Proof.
  cbn [health_check health_detections_made health_frames_processed].
  apply (run_invariant (fun cm => (detection_count cm <= frame_count cm)%nat)).
  - intros cm (_ & -> & -> & _). lia.
  - intros cm b H. exact H.
  - intros cm H. exact H.
  - intros cm a k l H. unfold initialize_model. destruct (a && _); exact H.
  - intros cm H. exact H.
  - intros cm ext fr thr H.
    destruct (process_frame_cases cm ext fr thr) as [E|[(o & _ & E)|(d & _ & E)]];
      rewrite E; cbn; lia.
Qed.

Lemma detections_at_most_frames_witness :
  (health_detections_made
     (health_check (turn_server (frame_stream_endpoint (server_init (Some one_hand))
                                   frame_conn_init still_world (Object (frame_message "abc"))))
                   true) <=
   health_frames_processed
     (health_check (turn_server (frame_stream_endpoint (server_init (Some one_hand))
                                   frame_conn_init still_world (Object (frame_message "abc"))))
                   true))%nat.
Proof.
  apply (detections_at_most_frames _ true).
  apply run_frame_stream. apply run_start. apply fresh_init.
Defined.

(** X19: in every state of a run the camera manager stores at most one current
    detection. *)
Theorem single_current_detection (sv : server) :
  run sv -> (length (current_detections (camera sv)) <= 1)%nat.
Proof.
  apply (run_invariant (fun cm => (length (current_detections cm) <= 1)%nat)).
  - intros cm (_ & _ & _ & _ & ->). simpl. lia.
  - intros cm b H. exact H.
  - intros cm H. simpl. lia.
  - intros cm a k l H. unfold initialize_model. destruct (a && _); exact H.
  - intros cm H. exact H.
  - intros cm ext fr thr H.
    destruct (process_frame_cases cm ext fr thr) as [E|[(o & _ & E)|(d & _ & E)]];
      rewrite E; cbn; lia.
Qed.

Lemma single_current_detection_witness :
  (length (current_detections
     (camera (turn_server (frame_stream_endpoint (server_init (Some one_hand))
                frame_conn_init still_world (Object (frame_message "abc")))))) <= 1)%nat.
Proof.
  apply (single_current_detection _).
  apply run_frame_stream. apply run_start. apply fresh_init.
Defined.

Lemma append_empty s : (s ++ "")%string = s.
Proof. induction s; simpl; [reflexivity|]. f_equal. assumption. Qed.

Lemma append_one p c s : ((p ++ String c "") ++ s)%string = (p ++ String c s)%string.
Proof. induction p; simpl; [reflexivity|]. f_equal. assumption. Qed.

Lemma split_no_comma s : forall piece,
  has_comma s = false -> split_commas s piece = [(piece ++ s)%string].
Proof.
  induction s as [|c s IH]; intros piece H; simpl in *.
  - rewrite append_empty. reflexivity.
  - apply orb_false_elim in H as [H1 H2]. rewrite H1, IH by assumption.
    rewrite append_one. reflexivity.
Qed.

Lemma split_at_comma h : forall piece rest,
  has_comma h = false ->
  split_commas (h ++ String comma rest) piece = (piece ++ h)%string :: split_commas rest EmptyString.
Proof.
  induction h as [|c h IH]; intros piece rest H; simpl in *.
  - rewrite append_empty. reflexivity.
  - apply orb_false_elim in H as [H1 H2]. rewrite H1, IH by assumption.
    rewrite append_one. reflexivity.
Qed.

Lemma has_comma_app h rest : has_comma (h ++ String comma rest) = true.
Proof.
  induction h as [|c h IH]; simpl; [reflexivity|]. rewrite IH. apply orb_true_r.
Qed.

(** X20: the payload that the frame handler decodes: a string without comma is
    taken as it is; of a data URL, what follows the header up to the next
    comma. *)
Theorem base64_part_strips_header (header data rest : string) :
  has_comma header = false -> has_comma data = false ->
  base64_part data = data /\
  base64_part (header ++ String comma data) = data /\
  base64_part (header ++ String comma (data ++ String comma rest)) = data.
Proof.
  intros Hh Hd. unfold base64_part. rewrite Hd, !has_comma_app.
  rewrite !split_at_comma by assumption.
  rewrite split_no_comma by assumption. split; [reflexivity|]. split; reflexivity.
Qed.

Lemma base64_part_strips_header_witness :
  base64_part "AAAA" = "AAAA"%string /\
  base64_part "data:image/jpeg;base64,AAAA" = "AAAA"%string /\
  base64_part "data:image/jpeg;base64,AAAA,BB" = "AAAA"%string.
Proof.
  apply (base64_part_strips_header "data:image/jpeg;base64" "AAAA" "BB"); reflexivity.
Defined.

Lemma process_frame_off cm ext fr thr :
  tracking_enabled cm = false \/ model cm = None ->
  process_frame cm ext fr thr = (cm, Returned None).
Proof.
  intros H. unfold process_frame.
  destruct (tracking_enabled cm); [|reflexivity].
  destruct (model cm); [|reflexivity].
  destruct H; discriminate.
Qed.

Lemma forced_gate_closed (p : positive) :
  (Z.pos p < forced_numerator)%Z -> should_process (Z.pos p) forced_divisor = Some false.
Proof.
  intros Hlt. unfold should_process, py_mod.
  change (Qeq_bool forced_divisor 0) with false. cbv iota. f_equal.
  destruct (Qeq_bool _ 0) eqn:E; [|reflexivity]. exfalso.
  apply Qeq_bool_iff in E.
  set (k := Qfloor (inject_Z (Z.pos p) / forced_divisor)) in *.
  unfold forced_divisor in E.
  assert (Hk : (Z.pos p * 18014398509481984 = 3602879701896397 * k)%Z).
  { unfold Qeq, Qminus, Qplus, Qmult, Qopp, inject_Z in E.
    cbn [Qnum Qden] in E. lia. }
  assert (Hdiv : (3602879701896397 | Z.pos p * 18014398509481984)%Z).
  { exists k. lia. }
  rewrite Z.mul_comm in Hdiv. apply Z.gauss in Hdiv; [|reflexivity].
  apply Z.divide_pos_le in Hdiv; [|lia]. unfold forced_numerator in Hlt. lia.
Qed.

Lemma with_camera_same sv : with_camera sv (camera sv) = sv.
Proof. destruct sv. reflexivity. Qed.

(** X21: while tracking is off or no model is loaded, a frame message on
    [/ws/frames] is answered by [frame_received] and a null detection and
    leaves the server state as it is; only the frame counter of the
    connection goes up. *)
Theorem frame_without_pipeline (sv : server) (c : frame_conn) (ext : externals) (m : message) :
  reachable c ->
  eqs (msg_type m) "frame" = true ->
  tracking_enabled (camera sv) = false \/ model (camera sv) = None ->
  frame_stream_endpoint sv c ext (Object m) =
    {| turn_server := sv; turn_conn := Some (bump c);
       turn_sent := [FrameReceived; DetectionReply None (now ext) None] |}.
Proof.
  intros Hreach Hkind Hoff.
  destruct (should_process_defined (frame_skip_counter (bump c)) (process_every_nth_frame (bump c)))
    as [go Hgo].
  { apply (reachable_divisor c Hreach). }
  unfold frame_stream_endpoint.
  rewrite (eqs_other _ _ "ping" Hkind), (eqs_other _ _ "refresh_detection" Hkind),
    (eqs_other _ _ "update_confidence" Hkind), Hkind by discriminate.
  rewrite Hgo.
  destruct (frame_field m) as [data|]; [|rewrite with_camera_same; reflexivity].
  destruct (truthy (Some data) && tracking_enabled (camera sv) && go) eqn:Egate;
    [|rewrite with_camera_same; reflexivity].
  apply andb_true_iff in Egate as [Egate _]. apply andb_true_iff in Egate as [_ Etrack].
  unfold decode_and_detect. destruct data as [s|b]; [|rewrite with_camera_same; reflexivity].
  destruct (b64_imdecode ext (base64_part s)) as [| |f];
    try (rewrite with_camera_same; reflexivity).
  rewrite process_frame_off by (destruct Hoff; auto).
  rewrite with_camera_same. reflexivity.
Qed.

Lemma frame_without_pipeline_witness :
  frame_stream_endpoint (server_init None) frame_conn_init still_world
                        (Object (frame_message "abc")) =
    {| turn_server := server_init None; turn_conn := Some (bump frame_conn_init);
       turn_sent := [FrameReceived; DetectionReply None (now still_world) None] |}.
Proof.
  apply (frame_without_pipeline (server_init None) frame_conn_init still_world
                                (frame_message "abc")).
  - apply reach_init.
  - reflexivity.
  - right. reflexivity.
Defined.

(** X22: with the initial divisor 0.5, a frame message whose payload is a
    non-empty string that decodes reaches [process_frame] while tracking is
    on; the detection sent is the one [process_frame] returned, and the
    server state is the one it left. *)
Theorem frame_runs_pipeline (sv : server) (c : frame_conn) (ext : externals) (m : message)
    (s : string) (f : frame) (cm : camera_manager) (d : option detection) :
  reachable c ->
  process_every_nth_frame c = default_divisor ->
  eqs (msg_type m) "frame" = true ->
  frame_field m = Some (PText s) -> s <> EmptyString ->
  tracking_enabled (camera sv) = true ->
  b64_imdecode ext (base64_part s) = Decoded f ->
  process_frame (camera sv) ext (Some f) (current_hand_detection_confidence sv)
    = (cm, Returned d) ->
  frame_stream_endpoint sv c ext (Object m) =
    {| turn_server := with_camera sv cm; turn_conn := Some (bump c);
       turn_sent := [FrameReceived; DetectionReply d (now ext) None] |}.
Proof.
  intros Hreach Hdiv Hkind Hfield Hs Htrack Hdec Hpf.
  assert (Hgate : should_process (frame_skip_counter (bump c)) (process_every_nth_frame (bump c))
                  = Some true).
  { pose proof (reachable_counter c Hreach) as Hpos.
    cbn [bump frame_skip_counter process_every_nth_frame]. rewrite Hdiv.
    destruct (frame_skip_counter c + 1)%Z as [|q|q] eqn:E; try lia.
    unfold should_process. rewrite py_mod_half. f_equal.
    apply Qeq_bool_iff. apply half_remainder. }
  unfold frame_stream_endpoint.
  rewrite (eqs_other _ _ "ping" Hkind), (eqs_other _ _ "refresh_detection" Hkind),
    (eqs_other _ _ "update_confidence" Hkind), Hkind by discriminate.
  rewrite Hgate, Hfield, Htrack.
  assert (Ht : truthy (Some (PText s)) = true) by (destruct s; [congruence | reflexivity]).
  rewrite Ht. cbn [andb]. unfold decode_and_detect. rewrite Hdec, Hpf. reflexivity.
Qed.

Lemma frame_runs_pipeline_witness :
  frame_stream_endpoint (server_init (Some one_hand)) frame_conn_init still_world
                        (Object (frame_message "abc")) =
    {| turn_server :=
         with_camera (server_init (Some one_hand))
           (record_detection (set_frame_count (camera_init (Some one_hand) true) 1) still_world
                             hand_detection);
       turn_conn := Some (bump frame_conn_init);
       turn_sent := [FrameReceived; DetectionReply (Some hand_detection) (now still_world) None] |}.
Proof.
  apply (frame_runs_pipeline (server_init (Some one_hand)) frame_conn_init still_world
                             (frame_message "abc") "abc" blank).
  - apply reach_init.
  - reflexivity.
  - reflexivity.
  - reflexivity.
  - discriminate.
  - reflexivity.
  - reflexivity.
  - exact hand_detected.
Defined.

(** X23: once a refresh with [force_process] has set the divisor to 0.2, no frame
    is processed: the remainder of the counter by the double 0.2 is not
    zero for any counter below 3602879701896397, so every frame message is
    answered by a null detection and the server state stays. *)
Theorem forced_divisor_blocks (sv : server) (c : frame_conn) (ext : externals) (m : message) :
  process_every_nth_frame c = forced_divisor ->
  (0 <= frame_skip_counter c < forced_numerator - 1)%Z ->
  eqs (msg_type m) "frame" = true ->
  frame_stream_endpoint sv c ext (Object m) =
    {| turn_server := sv; turn_conn := Some (bump c);
       turn_sent := [FrameReceived; DetectionReply None (now ext) None] |} /\
  process_every_nth_frame (bump c) = forced_divisor.
Proof.
  intros Hdiv Hcount Hkind. split; [|exact Hdiv].
  assert (Hgate : should_process (frame_skip_counter (bump c)) (process_every_nth_frame (bump c))
                  = Some false).
  { cbn [bump frame_skip_counter process_every_nth_frame]. rewrite Hdiv.
    destruct (frame_skip_counter c + 1)%Z as [|p|p] eqn:E; try lia.
    apply forced_gate_closed. lia. }
  unfold frame_stream_endpoint.
  rewrite (eqs_other _ _ "ping" Hkind), (eqs_other _ _ "refresh_detection" Hkind),
    (eqs_other _ _ "update_confidence" Hkind), Hkind by discriminate.
  rewrite Hgate. rewrite !andb_false_r.
  destruct (frame_field m); rewrite with_camera_same; reflexivity.
Qed.

Lemma forced_divisor_blocks_witness :
  frame_stream_endpoint (server_init (Some one_hand)) forced_conn still_world
                        (Object (frame_message "abc")) =
    {| turn_server := server_init (Some one_hand); turn_conn := Some (bump forced_conn);
       turn_sent := [FrameReceived; DetectionReply None (now still_world) None] |} /\
  process_every_nth_frame (bump forced_conn) = forced_divisor.
Proof.
  apply (forced_divisor_blocks (server_init (Some one_hand)) forced_conn still_world
                               (frame_message "abc")).
  - reflexivity.
  - unfold forced_numerator. simpl. lia.
  - reflexivity.
Defined.

(** X24: no turn of [frame_stream_endpoint] ends the forced divisor: a connection
    whose divisor is 0.2 keeps it. *)
Theorem forced_divisor_sticky (sv : server) (c c' : frame_conn) (ext : externals) (i : inbound) :
  process_every_nth_frame c = forced_divisor ->
  turn_conn (frame_stream_endpoint sv c ext i) = Some c' ->
  process_every_nth_frame c' = forced_divisor.
Proof.
  intros Hdiv Hstep.
  destruct (frame_stream_conn sv c ext i c' Hstep) as [->|[->| ->]]; [assumption|reflexivity|assumption].
Qed.

Lemma forced_divisor_sticky_witness :
  process_every_nth_frame (bump forced_conn) = forced_divisor.
Proof.
  apply (forced_divisor_sticky (server_init None) forced_conn (bump forced_conn) still_world
                               (Object (message_of_type "frame"))).
  - reflexivity.
  - reflexivity.
Defined.

(** X25: a frame in which nothing is detected leaves the stored detection in
    place, and a [refresh_detection] that follows sends it: the reply is
    the detection stored before the frame, not null. *)
Theorem stale_detection_served (sv : server) (c c2 : frame_conn) (ext ext2 : externals)
    (m m2 : message) :
  reachable c ->
  eqs (msg_type m) "frame" = true ->
  eqs (msg_type m2) "refresh_detection" = true ->
  turn_sent (frame_stream_endpoint sv c ext (Object m)) =
    [FrameReceived; DetectionReply None (now ext) None] ->
  turn_sent (frame_stream_endpoint (turn_server (frame_stream_endpoint sv c ext (Object m)))
                                   c2 ext2 (Object m2)) =
    [DetectionReply (hd_error (current_detections (camera sv))) (now ext2)
                    (Some "refresh_request"%string)].
Proof.
  intros Hreach Hkind Hkind2 Hsent.
  assert (Hcur : current_detections (camera (turn_server (frame_stream_endpoint sv c ext (Object m))))
                 = current_detections (camera sv)).
  { destruct (should_process_defined (frame_skip_counter (bump c))
                (process_every_nth_frame (bump c))) as [go Hgo].
    { apply (reachable_divisor c Hreach). }
    revert Hsent. unfold frame_stream_endpoint.
    rewrite (eqs_other _ _ "ping" Hkind), (eqs_other _ _ "refresh_detection" Hkind),
      (eqs_other _ _ "update_confidence" Hkind), Hkind by discriminate.
    rewrite Hgo.
    destruct (frame_field m) as [data|]; [|reflexivity].
    destruct (truthy (Some data) && tracking_enabled (camera sv) && go); [|reflexivity].
    unfold decode_and_detect. destruct data as [s|b]; [|reflexivity].
    destruct (b64_imdecode ext (base64_part s)) as [| |f]; try reflexivity.
    destruct (process_frame (camera sv) ext (Some f) (current_hand_detection_confidence sv))
      as [cm o] eqn:Epf.
    destruct o as [[d|]|]; cbn [turn_sent turn_server camera with_camera]; intros Hsent.
    - discriminate.
    - destruct (no_detection_state _ _ _ _ _ _ Epf) as [->| ->];
        [intros d; discriminate | reflexivity | reflexivity].
    - destruct (no_detection_state _ _ _ _ _ _ Epf) as [->| ->];
        [intros d; discriminate | reflexivity | reflexivity]. }
  set (sv1 := turn_server (frame_stream_endpoint sv c ext (Object m))) in *.
  unfold frame_stream_endpoint.
  rewrite (eqs_other _ _ "ping" Hkind2), Hkind2 by discriminate.
  cbn [turn_sent]. destruct (tracking_enabled (camera sv1)); cbn [current_detections set_tracking];
    rewrite Hcur; reflexivity.
Qed.

Lemma stale_detection_served_witness :
  turn_sent (frame_stream_endpoint
               (turn_server (frame_stream_endpoint tracked_server frame_conn_init still_world
                                                   (Object (frame_message "abc"))))
               (bump frame_conn_init) still_world (Object (message_of_type "refresh_detection"))) =
    [DetectionReply (Some hand_detection) (now still_world) (Some "refresh_request"%string)].
Proof.
  apply (stale_detection_served tracked_server frame_conn_init (bump frame_conn_init)
                                still_world still_world (frame_message "abc")
                                (message_of_type "refresh_detection")).
  - apply reach_init.
  - reflexivity.
  - reflexivity.
  - reflexivity.
Defined.

(** X26: after [stop_tracking] on [/ws] tracking is off and no detection is
    stored; a [refresh_detection] on [/ws/frames] then switches tracking
    on again and sends a null detection. *)
Theorem refresh_overrides_stop (sv : server) (c : frame_conn) (ext ext2 : externals)
    (m m2 : message) :
  eqs (py_or (msg_message_type m) (msg_type m)) "stop_tracking" = true ->
  eqs (msg_type m2) "refresh_detection" = true ->
  let stopped := turn_server (websocket_endpoint sv ext (Object m)) in
  let refreshed := frame_stream_endpoint stopped c ext2 (Object m2) in
  tracking_enabled (camera stopped) = false /\
  current_detections (camera stopped) = [] /\
  tracking_enabled (camera (turn_server refreshed)) = true /\
  turn_sent refreshed = [DetectionReply None (now ext2) (Some "refresh_request"%string)].
Proof.
  intros Hk Hk2 stopped refreshed.
  assert (Es : stopped = with_camera sv (set_current_detections (set_tracking (camera sv) false) [])).
  { unfold stopped, websocket_endpoint.
    rewrite (eqs_other _ _ "ping" Hk), (eqs_other _ _ "start_tracking" Hk), Hk by discriminate.
    reflexivity. }
  assert (Er : refreshed =
    {| turn_server := with_camera stopped (set_tracking (camera stopped) true);
       turn_conn := Some (if get_default (msg_force_process m2) false
                          then {| frame_skip_counter := frame_skip_counter c;
                                  process_every_nth_frame := forced_divisor |}
                          else c);
       turn_sent := [DetectionReply None (now ext2) (Some "refresh_request"%string)] |}).
  { unfold refreshed, frame_stream_endpoint.
    rewrite (eqs_other _ _ "ping" Hk2), Hk2 by discriminate.
    rewrite Es. reflexivity. }
  rewrite Er. rewrite Es. repeat split; reflexivity.
Qed.

Lemma refresh_overrides_stop_witness :
  let stopped := turn_server (websocket_endpoint (server_init (Some one_hand)) still_world
                                                 (Object (message_of_type "stop_tracking"))) in
  let refreshed := frame_stream_endpoint stopped frame_conn_init still_world
                                         (Object (message_of_type "refresh_detection")) in
  tracking_enabled (camera stopped) = false /\
  current_detections (camera stopped) = [] /\
  tracking_enabled (camera (turn_server refreshed)) = true /\
  turn_sent refreshed = [DetectionReply None (now still_world) (Some "refresh_request"%string)].
Proof.
  apply (refresh_overrides_stop (server_init (Some one_hand)) frame_conn_init still_world
                                still_world (message_of_type "stop_tracking")
                                (message_of_type "refresh_detection")).
  - reflexivity.
  - reflexivity.
Defined.
